(** * raimad / pycif: the component hierarchy and bounding boxes

    A shallow embedding of [pycif/draw/Component.py] (and its twin
    [pycif/draw/Compo.py], which is the same code under shorter names) and of
    [pycif/draw/BBox.py].

    Python objects live in stores indexed by allocation order; a reference is
    an index.  Methods that mutate [self] or allocate are written in a state
    and exception monad over the store, so that aliasing (a dictionary handed
    to [add_subcomponent], a polygon copied on export) is visible. *)

From Stdlib Require Import QArith Lia.
From stdpp Require Import base option list gmap sets strings fin_maps.

(** ** Part I: definitions *)

(** *** The Python runtime the code relies on *)

Module Py.

(** A reference to an object of a store. *)
Definition loc := nat.

(** Values an option may hold. *)
Inductive value :=
| VNone
| VBool (b : bool)
| VInt (z : Z)
| VStr (s : string).

#[global] Instance value_eq_dec : EqDecision value.
Proof. solve_decision. Defined.

(** The texts of the generic [Exception]s raised in Component.py, one per
    raise site. *)
Inductive exception_text :=
| MustSpecifyLayermap (child_layers : gset string) (child : loc)
                      (parent_layers : gset string) (parent : loc)
| StrShorthandChildNotSingle
| StrShorthandNotInParent
| KeysNotSubsetOfChild
| ValuesNotSubsetOfParent
| ShorthandIncorrectType
| PolygonNeedsLayer (child : loc) (parent : loc) (parent_layers : gset string)
| PolygonLayerNotFound (child : loc) (parent : loc) (layer_shorthand : string)
                       (parent_layers : gset string).

Inductive exn :=
| Exception (text : exception_text)
| UnknownOptionSuppliedError (unknown_opts known_opts : gset string)
| EmptyBBoxException (text : string)
| KeyError (key : string)
| AssertionError
| NotImplementedError
| RecursionError
| IndexError
| AttributeError (obj : loc).

Inductive outcome (A : Type) :=
| Return (a : A)
| Raise (e : exn).
Arguments Return {A} a.
Arguments Raise {A} e.

(** Computations over a store [S] that may raise; the store is kept when
    an exception propagates, as Python keeps the objects mutated so far. *)
Definition ST (S A : Type) : Type := S → outcome A * S.

#[global] Instance ST_ret {S} : MRet (ST S) :=
  λ A a s, (Return a, s).

#[global] Instance ST_bind {S} : MBind (ST S) :=
  λ A B k m s,
    match m s with
    | (Return a, s') => k a s'
    | (Raise e, s') => (Raise e, s')
    end.

Definition raise {S A} (e : exn) : ST S A :=
  λ s, (Raise e, s).

Definition lift {S A} (o : outcome A) : ST S A :=
  λ s, (o, s).

(** [for x in xs: body(x)] *)
Fixpoint for_each {S A} (xs : list A) (body : A → ST S unit) : ST S unit :=
  match xs with
  | [] => mret tt
  | x :: xs' => body x;; for_each xs' body
  end.

(** [[e(x) for x in xs if c(x)]]: [elt x] is [None] where the condition
    rejects [x]. *)
Fixpoint comprehension {S A B} (xs : list A) (elt : A → ST S (option B))
  : ST S (list B) :=
  match xs with
  | [] => mret []
  | x :: xs' =>
      y ← elt x;
      ys ← comprehension xs' elt;
      mret (match y with Some b => b :: ys | None => ys end)
  end.

(** [[y for x in xs for y in inner(x)]] *)
Fixpoint nested_comprehension {S A B} (xs : list A) (inner : A → ST S (list B))
  : ST S (list B) :=
  match xs with
  | [] => mret []
  | x :: xs' =>
      ys ← inner x;
      zs ← nested_comprehension xs' inner;
      mret (ys ++ zs)
  end.

End Py.
Export Py.

(** *** Component.Options *)

Module Options.

(** What a class body binds a name to: a [pc.Option] with its default, or
    anything else. *)
Inductive attribute :=
| Option_ (default : value)
| OtherAttribute.

#[global] Instance attribute_eq_dec : EqDecision attribute.
Proof. solve_decision. Defined.

(** A class of the method resolution order of an [Options] namespace. *)
Record class := {
  issubclass_Options : bool;           (* issubclass(parent, Component.Options) *)
  vars : list (string * attribute);    (* vars(parent).items() *)
}.

(** The body of the inner loop of [Options.__init__]. *)
Definition declare (self : gmap string value) (item : string * attribute)
  : gmap string value :=
  match item.2 with
  | Option_ default => <[item.1 := default]> self
  | OtherAttribute => self
  end.

(** [for parent in type(self).__mro__: ...], leaving at the first class that
    is no subclass of [Component.Options]. *)
Fixpoint declare_mro (mro : list class) (self : gmap string value)
  : gmap string value :=
  match mro with
  | [] => self
  | parent :: mro' =>
      if negb (issubclass_Options parent) then self
      else declare_mro mro' (foldl declare self (vars parent))
  end.

(** [Options.__init__(self, values)]: the resulting dictionary, or the
    exception raised. *)
Definition __init__ (mro : list class) (values : option (gmap string value))
  : outcome (gmap string value) :=
  let self := declare_mro mro ∅ in
  match values with
  | None => Return self
  | Some values =>
      let unknown_opts := dom values ∖ dom self in
      if decide (unknown_opts ≠ ∅) then
        Raise (UnknownOptionSuppliedError unknown_opts (dom self))
      else
        Return (foldl (λ self item, <[item.1 := item.2]> self) self
                      (map_to_list values))
  end.

End Options.

(** *** Component, Subpolygon, Subcomponent and the layer-map resolver *)

Module Draw.

(** [SubcomponentLayermapShorthand = None | str | dict] and
    [SubpolygonLayerShorthand = None | str]; [ShOther] is an argument of any
    other type.  A dictionary is passed by reference. *)
Inductive shorthand :=
| ShNone
| ShStr (s : string)
| ShDict (d : loc)
| ShOther.

(** Records written by [log.debug] and [log.warning]. *)
Inductive LogRecord :=
| DebugSoleLayermap (child_layers : gset string) (child : loc)
                    (parent_layers : gset string) (parent : loc)
| DebugSolePolygonLayer (child : loc) (sole_layer : string) (parent : loc)
| WarningThrowingAway (missing_layer : string) (child parent : loc).

Definition is_warning (r : LogRecord) : bool :=
  match r with
  | WarningThrowingAway _ _ _ => true
  | _ => false
  end.

(** [set(layermap_shorthand.values()).issubset(parent_layers)], one value:
    [None] is no member of a set of layer names. *)
Definition value_in_layers (parent_layers : gset string) (v : option string)
  : bool :=
  match v with
  | Some l => bool_decide (l ∈ parent_layers)
  | None => false
  end.

(** [dict(zip(keys, values))] over layer names. *)
Definition dict_zip (keys values : list string) : gmap string (option string) :=
  list_to_map (zip keys (Some <$> values)).

Section Geometry.

(** Modelled from the spec: the polygon capability and the placement
    transform, whose classes are outside these files.  A polygon object holds
    a value of [Polygon], a transform acts on such a value, and [identity] is
    the transform a new instance starts with. *)
Context {Polygon Transform : Type}.
Context (apply_transform : Transform → Polygon → Polygon).
Context (identity : Transform).

(** [Subpolygon]: a polygon and the layer it belongs to in the parent. *)
Record Subpolygon := mkSubpolygon {
  polygon : loc;
  layer : string;
}.

(** [Subcomponent]: a component that is part of another component. *)
Record Subcomponent := mkSubcomponent {
  component : loc;
  layermap : loc;
}.

(** A component instance. *)
Record Component := mkComponent {
  options : gmap string value;
  layers : list string;
  transform : Transform;
  subcomponents : list Subcomponent;
  subpolygons : list Subpolygon;
}.

(** The objects alive: component instances, layer-map dictionaries and
    polygons, and the records logged so far. *)
Record Heap := mkHeap {
  compos : list Component;
  dicts : list (gmap string (option string));
  polys : list Polygon;
  log : list LogRecord;
}.

Abbreviation M := (ST Heap).

Definition get_component (l : loc) : M Component :=
  λ h, match compos h !! l with
       | Some c => (Return c, h)
       | None => (Raise (AttributeError l), h)
       end.

Definition set_component (l : loc) (c : Component) : M unit :=
  λ h, (Return tt, mkHeap (<[l := c]> (compos h)) (dicts h) (polys h) (log h)).

Definition new_component (c : Component) : M loc :=
  λ h, (Return (length (compos h)),
        mkHeap (compos h ++ [c]) (dicts h) (polys h) (log h)).

Definition get_dict (d : loc) : M (gmap string (option string)) :=
  λ h, match dicts h !! d with
       | Some m => (Return m, h)
       | None => (Raise (AttributeError d), h)
       end.

(** [d[key] = v] *)
Definition dict_setitem (d : loc) (key : string) (v : option string) : M unit :=
  λ h, match dicts h !! d with
       | Some m =>
           (Return tt,
            mkHeap (compos h) (<[d := <[key := v]> m]> (dicts h)) (polys h) (log h))
       | None => (Raise (AttributeError d), h)
       end.

Definition new_dict (m : gmap string (option string)) : M loc :=
  λ h, (Return (length (dicts h)),
        mkHeap (compos h) (dicts h ++ [m]) (polys h) (log h)).

Definition get_polygon_value (p : loc) : M Polygon :=
  λ h, match polys h !! p with
       | Some v => (Return v, h)
       | None => (Raise (AttributeError p), h)
       end.

Definition new_polygon (v : Polygon) : M loc :=
  λ h, (Return (length (polys h)),
        mkHeap (compos h) (dicts h) (polys h ++ [v]) (log h)).

Definition emit (r : LogRecord) : M unit :=
  λ h, (Return tt, mkHeap (compos h) (dicts h) (polys h) (log h ++ [r])).

(** Modelled from the spec: [Polygon.copy], which is outside these files
    ([copy() -> Polygon]): a new polygon object with the same value. *)
Definition Polygon_copy (p : loc) : M loc :=
  v ← get_polygon_value p;
  new_polygon v.

(** Modelled from the spec: [Polygon.apply_transform], which is outside
    these files.  As its callers use it ([PolygonGroup.apply] drops the
    result, [PolygonGroup.get_polygons] and [get_subpolygons] chain it on a
    copy), it transforms the polygon in place and returns it. *)
Definition Polygon_apply_transform (p : loc) (t : Transform) : M loc :=
  λ h, match polys h !! p with
       | Some v =>
           (Return p,
            mkHeap (compos h) (dicts h) (<[p := apply_transform t v]> (polys h))
                   (log h))
       | None => (Raise (AttributeError p), h)
       end.

(** **** parse_subcomponent_layermap_shorthand *)

Definition parse_subcomponent_layermap_shorthand
    (parent child : loc) (layermap_shorthand : shorthand) : M loc :=
  p ← get_component parent;
  c ← get_component child;
  let parent_layers : gset string := list_to_set (layers p) in
  let child_layers : gset string := list_to_set (layers c) in
  layermap ←
    match layermap_shorthand with
    | ShNone =>
        if decide (child_layers ⊆ parent_layers) then
          new_dict (dict_zip (elements child_layers) (elements child_layers))
        else if decide (size parent_layers = size child_layers
                        ∧ size child_layers = 1) then
          emit (DebugSoleLayermap child_layers child parent_layers parent);;
          new_dict (dict_zip (elements child_layers) (elements parent_layers))
        else
          raise (Exception
                   (MustSpecifyLayermap child_layers child parent_layers parent))
    | ShStr s =>
        if decide (size child_layers ≠ 1) then
          raise (Exception StrShorthandChildNotSingle)
        else if decide (s ∉ parent_layers) then
          raise (Exception StrShorthandNotInParent)
        else
          match elements child_layers with
          | l :: _ => new_dict {[ l := Some s ]}
          | [] => raise IndexError
          end
    | ShDict d =>
        m ← get_dict d;
        if decide (¬ dom m ⊆ child_layers) then
          raise (Exception KeysNotSubsetOfChild)
        else if negb (forallb (value_in_layers parent_layers)
                              (map_to_list m).*2) then
          raise (Exception ValuesNotSubsetOfParent)
        else
          mret d
    | ShOther => raise (Exception ShorthandIncorrectType)
    end;
  (* Pad layermap *)
  m ← get_dict layermap;
  for_each (elements (child_layers ∖ dom m))
    (λ missing_layer,
       emit (WarningThrowingAway missing_layer child parent);;
       dict_setitem layermap missing_layer None);;
  mret layermap.

(** **** parse_subpolygon_layer_shorthand *)

Definition parse_subpolygon_layer_shorthand
    (parent child : loc) (layer_shorthand : shorthand) : M string :=
  p ← get_component parent;
  let parent_layers : gset string := list_to_set (layers p) in
  match layer_shorthand with
  | ShNone =>
      if decide (size parent_layers = 1) then
        match elements parent_layers with
        | sole_layer :: _ =>
            emit (DebugSolePolygonLayer child sole_layer parent);;
            mret sole_layer
        | [] => raise IndexError
        end
      else
        raise (Exception (PolygonNeedsLayer child parent parent_layers))
  | ShStr s =>
      if decide (s ∈ parent_layers) then mret s
      else raise (Exception (PolygonLayerNotFound child parent s parent_layers))
  | _ => raise (Exception ShorthandIncorrectType)
  end.

(** **** Component.add_subcomponent and Component.add_subpolygon *)

Definition add_subcomponent
    (self component : loc) (layermap_shorthand : shorthand) : M unit :=
  layermap ← parse_subcomponent_layermap_shorthand self component
                                                    layermap_shorthand;
  let subcomponent := mkSubcomponent component layermap in
  c ← get_component self;
  set_component self
    (mkComponent (options c) (layers c) (transform c)
                 (subcomponents c ++ [subcomponent]) (subpolygons c)).

Definition add_subpolygon
    (self polygon : loc) (layermap : shorthand) : M unit :=
  layermap_full ← parse_subpolygon_layer_shorthand self polygon layermap;
  let subpolygon := mkSubpolygon polygon layermap_full in
  c ← get_component self;
  set_component self
    (mkComponent (options c) (layers c) (transform c)
                 (subcomponents c) (subpolygons c ++ [subpolygon])).

(** **** Subpolygon *)

Definition Subpolygon_get_subpolygon (self : Subpolygon) : M Subpolygon :=
  p ← Polygon_copy (polygon self);
  mret (mkSubpolygon p (layer self)).

Definition Subpolygon_get_polygon (self : Subpolygon) : M loc :=
  Polygon_copy (polygon self).

(** **** Subcomponent.get_subpolygons

    [get_subpolygons] is [self.component.get_subpolygons], the recursive
    call. *)
Definition Subcomponent_get_subpolygons
    (get_subpolygons : loc → M (list Subpolygon)) (self : Subcomponent)
  : M (list Subpolygon) :=
  subpolys ← get_subpolygons (component self);
  comprehension subpolys
    (λ subpoly,
       lm ← get_dict (layermap self);
       match lm !! layer subpoly with
       | None => raise (KeyError (layer subpoly))
       | Some None => mret None
       | Some (Some l) =>
           p ← Subpolygon_get_polygon subpoly;
           mret (Some (mkSubpolygon p l))
       end).

(** **** Component.get_subpolygons

    The recursion follows references of the store, which may form a cycle:
    [fuel] bounds the depth of calls, and the interpreter's [RecursionError]
    is raised when it is used up. *)
Fixpoint Component_get_subpolygons
    (fuel : nat) (self : loc) (layermap : option loc) (do_apply_transform : bool)
  : M (list Subpolygon) :=
  match fuel with
  | 0 => raise RecursionError
  | S fuel' =>
      c ← get_component self;
      layermap ←
        match layermap with
        | None => mret (dict_zip (layers c) (layers c))
        | Some d =>
            m ← get_dict d;
            if decide (dom m ⊆ list_to_set (layers c)) then mret m
            else raise AssertionError
        end;
      inner ← nested_comprehension (subcomponents c)
                (Subcomponent_get_subpolygons
                   (λ child, Component_get_subpolygons fuel' child None true));
      own ← comprehension (subpolygons c)
              (λ subpoly_inner_2,
                 subpoly ← Subpolygon_get_subpolygon subpoly_inner_2;
                 mret (Some subpoly));
      comprehension (inner ++ own)
        (λ subpoly,
           match layermap !! layer subpoly with
           | None => raise (KeyError (layer subpoly))
           | Some None => mret None
           | Some (Some l) =>
               p ← Subpolygon_get_polygon subpoly;
               p ← (if do_apply_transform
                    then Polygon_apply_transform p (transform c)
                    else mret p);
               mret (Some (mkSubpolygon p l))
           end)
  end.

Definition _get_subpolygons (fuel : nat) (self : loc) : M (list Subpolygon) :=
  Component_get_subpolygons fuel self None false.

(** **** Component.__init__ *)

(** A component class: the method resolution order of its [Options]
    namespace, its [Layers()] tuple and its [_make]. *)
Record ComponentClass := mkComponentClass {
  Options_mro : list Options.class;
  Layers : list string;
  _make : loc → M unit;
}.

(** [Component.__init__(self, options)], returning the instance.  The object
    enters the store once its first attributes are assigned; when
    [Options(options)] raises, nothing refers to it. *)
Definition Component_init (cls : ComponentClass)
    (options : option (gmap string value)) : M loc :=
  opts ← lift (Options.__init__ (Options_mro cls) options);
  self ← new_component (mkComponent opts (Layers cls) identity [] []);
  _make cls self;;
  mret self.

(** [Component._make] of the base class. *)
Definition Component_make (self : loc) : M unit :=
  raise NotImplementedError.

End Geometry.

Arguments Component : clear implicits.
Arguments Heap : clear implicits.
Arguments ComponentClass : clear implicits.

End Draw.

(** *** BBox *)

Module BBox.

(** A Python number as a coordinate: an exact finite number, or one of the
    floats [float('inf')], [float('-inf')] and [nan]. *)
Inductive num :=
| NaN
| NegInf
| Fin (q : Q)
| PosInf.

(** [a < b] *)
Definition ltb (a b : num) : bool :=
  match a, b with
  | NaN, _ | _, NaN => false
  | NegInf, NegInf => false
  | NegInf, _ => true
  | PosInf, _ => false
  | Fin _, NegInf => false
  | Fin x, Fin y => negb (Qle_bool y x)
  | Fin _, PosInf => true
  end.

(** [a > b] *)
Definition gtb (a b : num) : bool := ltb b a.

(** [a == b] *)
Definition eqb (a b : num) : bool :=
  match a, b with
  | NegInf, NegInf | PosInf, PosInf => true
  | Fin x, Fin y => Qeq_bool x y
  | _, _ => false
  end.

Definition neg (a : num) : num :=
  match a with
  | NaN => NaN
  | NegInf => PosInf
  | Fin x => Fin (- x)%Q
  | PosInf => NegInf
  end.

(** [a + b] *)
Definition add (a b : num) : num :=
  match a, b with
  | NaN, _ | _, NaN => NaN
  | PosInf, NegInf | NegInf, PosInf => NaN
  | PosInf, _ | _, PosInf => PosInf
  | NegInf, _ | _, NegInf => NegInf
  | Fin x, Fin y => Fin (x + y)%Q
  end.

(** [a - b] *)
Definition sub (a b : num) : num := add a (neg b).

(** The sign of a finite number or an infinity. *)
Definition sign (a : num) : comparison :=
  match a with
  | NaN => Eq
  | NegInf => Lt
  | Fin x => (0 ?= x)%Q
  | PosInf => Gt
  end.

(** [a * b] *)
Definition mul (a b : num) : num :=
  match a, b with
  | NaN, _ | _, NaN => NaN
  | Fin x, Fin y => Fin (x * y)%Q
  | _, _ =>
      match sign a, sign b with
      | Eq, _ | _, Eq => NaN
      | Lt, Lt | Gt, Gt => PosInf
      | _, _ => NegInf
      end
  end.

(** [bool(a)]: a number is false when it equals zero. *)
Definition truthy (a : num) : bool :=
  match a with
  | Fin x => negb (Qeq_bool x 0%Q)
  | _ => true
  end.

(** [True] and [False] used as numbers. *)
Definition of_bool (b : bool) : num := Fin (if b then 1%Q else 0%Q).

(** Disable to use computer-style Y axis (increases downwards). *)
Definition MATHEMATIC_Y_AXIS : bool := true.

Record BBox := mkBBox {
  max_x : num;
  max_y : num;
  min_x : num;
  min_y : num;
  _transformable : option loc;
}.

(** [pc.Point(x, y)] and [pc.BoundPoint(x, y, transformable)]. *)
Inductive point :=
| Point (x y : num)
| BoundPoint (x y : num) (transformable : loc).

(** The bounding boxes alive. *)
Abbreviation B := (ST (list BBox)).

Definition get (self : loc) : B BBox :=
  λ s, match s !! self with
       | Some b => (Return b, s)
       | None => (Raise (AttributeError self), s)
       end.

Definition put (self : loc) (b : BBox) : B unit :=
  λ s, (Return tt, <[self := b]> s).

Definition new (b : BBox) : B loc :=
  λ s, (Return (length s), s ++ [b]).

Definition add_point (self : loc) (point : num * num) : B unit :=
  b ← get self;
  let b := if gtb point.1 (max_x b)
           then mkBBox point.1 (max_y b) (min_x b) (min_y b) (_transformable b)
           else b in
  let b := if ltb point.1 (min_x b)
           then mkBBox (max_x b) (max_y b) point.1 (min_y b) (_transformable b)
           else b in
  let b := if gtb point.2 (max_y b)
           then mkBBox (max_x b) point.2 (min_x b) (min_y b) (_transformable b)
           else b in
  let b := if ltb point.2 (min_y b)
           then mkBBox (max_x b) (max_y b) (min_x b) point.2 (_transformable b)
           else b in
  put self b.

Definition add_xyarray (self : loc) (xyarray : list (num * num)) : B unit :=
  for_each xyarray (add_point self).

Definition __init__ (xyarray : option (list (num * num)))
    (transformable : option loc) : B loc :=
  self ← new (mkBBox NegInf NegInf PosInf PosInf transformable);
  match xyarray with
  | Some xyarray => add_xyarray self xyarray
  | None => mret tt
  end;;
  mret self.

Definition as_list (self : loc) : B (list num) :=
  b ← get self;
  mret [min_x b; min_y b; max_x b; max_y b].

Definition is_empty (self : loc) : B bool :=
  b ← get self;
  mret (eqb (max_x b) NegInf || eqb (max_y b) NegInf
        || eqb (min_x b) PosInf || eqb (min_y b) PosInf).

Definition assert_nonempty (self : loc) (text : string) : B unit :=
  empty ← is_empty self;
  if (empty : bool) then raise (EmptyBBoxException text) else mret tt.

Definition copy (self : loc) : B loc :=
  new_bbox ← new (mkBBox NegInf NegInf PosInf PosInf None);
  b ← get self;
  put new_bbox (mkBBox (max_x b) (max_y b) (min_x b) (min_y b) None);;
  mret new_bbox.

Definition width (self : loc) : B num :=
  assert_nonempty self "Tried to get width of empty bbox.";;
  b ← get self;
  mret (sub (max_x b) (min_x b)).

Definition height (self : loc) : B num :=
  assert_nonempty self "Tried to get height of empty bbox.";;
  b ← get self;
  mret (sub (max_y b) (min_y b)).

Definition left (self : loc) : B num :=
  assert_nonempty self "Tried to get left of empty bbox.";;
  b ← get self;
  mret (min_x b).

Definition top (self : loc) : B num :=
  assert_nonempty self "Tried to get top of empty bbox.";;
  b ← get self;
  mret (if MATHEMATIC_Y_AXIS then max_y b else min_y b).

Definition right (self : loc) : B num :=
  assert_nonempty self "Tried to get right of empty bbox.";;
  b ← get self;
  mret (max_x b).

Definition bottom (self : loc) : B num :=
  assert_nonempty self "Tried to get bottom of empty bbox.";;
  b ← get self;
  mret (if MATHEMATIC_Y_AXIS then min_y b else max_y b).

Definition interpolate (self : loc) (x_ratio y_ratio : num) : B point :=
  b ← get self;
  w ← width self;
  let x := add (min_x b) (mul w x_ratio) in
  h ← height self;
  let y := add (min_y b) (mul h y_ratio) in
  match _transformable b with
  | None => mret (Point x y)
  | Some t => mret (BoundPoint x y t)
  end.

Definition mid (self : loc) : B point :=
  assert_nonempty self "Tried to get middle point of empty bbox";;
  interpolate self (Fin (1 # 2)%Q) (Fin (1 # 2)%Q).





Definition top_left (self : loc) : B point :=
  assert_nonempty self "Tried to get top left point of empty bbox";;
  interpolate self (Fin 0%Q) (of_bool MATHEMATIC_Y_AXIS).




(** [pad(self, x=0, y=None, /, *, left=0, top=0, right=0, bottom=0)]; an
    argument left out is passed as its default. *)
Definition pad (self : loc) (x : num) (y : option num)
    (left top right bottom : num) : B loc :=
  assert_nonempty self "Tried to pad empty bbox";;
  (* y = y or x *)
  let y := match y with
           | Some y' => if truthy y' then y' else x
           | None => x
           end in
  new ← copy self;
  b ← get new;
  put new (mkBBox (max_x b) (max_y b) (sub (min_x b) (add left x)) (min_y b)
                  (_transformable b));;
  b ← get new;
  put new (mkBBox (add (max_x b) (add right x)) (max_y b) (min_x b) (min_y b)
                  (_transformable b));;
  b ← get new;
  put new (mkBBox (max_x b) (max_y b) (min_x b) (sub (min_y b) (add bottom y))
                  (_transformable b));;
  b ← get new;
  put new (mkBBox (max_x b) (add (max_y b) (add top y)) (min_x b) (min_y b)
                  (_transformable b));;
  mret new.

End BBox.

(** *** Vocabulary of the statements *)

Module Spec.

(** The error kinds of the design, as the raise sites that signal them. *)
Definition UnknownOption (e : exn) : Prop :=
  ∃ unknown known, e = UnknownOptionSuppliedError unknown known.

Definition AmbiguousLayerMap (e : exn) : Prop :=
  ∃ child_layers child parent_layers parent,
    e = Exception (MustSpecifyLayermap child_layers child parent_layers parent).

Definition InvalidLayerMap (e : exn) : Prop :=
  e = Exception KeysNotSubsetOfChild ∨ e = Exception ValuesNotSubsetOfParent
  ∨ e = Exception StrShorthandChildNotSingle
  ∨ e = Exception StrShorthandNotInParent.

(** A computation leaves the part [f] of the store as it found it, whatever
    its outcome. *)
Definition preserves {S A X} (f : S → X) (m : ST S A) : Prop :=
  ∀ s, f (m s).2 = f s.

Section Flattening.

Import Draw.

Context {Polygon Transform : Type}.
Context (apply_transform : Transform → Polygon → Polygon).

(** [h'] is [h] with more polygons allocated: every object of [h] is there,
    as it was. *)
Definition extends (h h' : Heap Polygon Transform) : Prop :=
  compos h' = compos h ∧ dicts h' = dicts h ∧ log h' = log h
  ∧ polys h `prefix_of` polys h'.

(** The subpolygon [sp] carries the geometry and the layer of [v]. *)
Definition has_value (h : Heap Polygon Transform) (sp : Subpolygon)
    (v : Polygon * string) : Prop :=
  layer sp = v.2 ∧ polys h !! polygon sp = Some v.1.

(** The subpolygon [sp] was allocated after [h] was taken: it is no object
    of [h]. *)
Definition fresh_in (h : Heap Polygon Transform) (sp : Subpolygon) : Prop :=
  length (polys h) ≤ polygon sp.

(** Relabelling a list of geometry through a layer map: what is mapped to
    discard is dropped, the rest is transformed by [f] and takes the layer
    the map gives. *)
Definition relabel (look : string → option (option string))
    (f : Polygon → Polygon) (vals : list (Polygon * string))
  : list (Polygon * string) :=
  omap (λ v, match look v.2 with
             | Some (Some l) => Some (f v.1, l)
             | _ => None
             end) vals.

(** The geometry owned by a component. *)
Definition own_contents (h : Heap Polygon Transform) (sps : list Subpolygon)
  : list (Polygon * string) :=
  omap (λ sp, (λ v, (v, layer sp)) <$> polys h !! polygon sp) sps.

(** Flattening as the design describes it: the geometry of every
    subcomponent, transformed by the subcomponent's own transform and
    relabelled through its layer map, then the geometry owned by the
    component; all of it transformed by the component's transform when
    [do_apply_transform] is set.  [n] bounds the depth of the tree. *)
Fixpoint contents (n : nat) (h : Heap Polygon Transform) (self : loc)
    (do_apply_transform : bool) : list (Polygon * string) :=
  match n with
  | 0 => []
  | S n' =>
      match compos h !! self with
      | None => []
      | Some c =>
          let inner :=
            mbind (M := list)
              (λ sc, match dicts h !! layermap sc with
                     | Some lm =>
                         relabel (lm !!.) id (contents n' h (component sc) true)
                     | None => []
                     end)
              (subcomponents c) in
          relabel (dict_zip (layers c) (layers c) !!.)
                  (if do_apply_transform then apply_transform (transform c)
                   else id)
                  (inner ++ own_contents h (subpolygons c))
      end
  end.

(** The instance tree under [self], of depth at most [n], is well formed:
    every reference is to an object of the store, every subpolygon lies on a
    layer of its owner, and every layer map is total over the layers of the
    child and maps into the layers of the parent or to discard.  This is
    what [add_subpolygon] and [add_subcomponent] establish. *)
Fixpoint tree_wf (h : Heap Polygon Transform) (n : nat) (self : loc) : Prop :=
  match n with
  | 0 => False
  | S n' =>
      ∃ c, compos h !! self = Some c
           ∧ (∀ sp, sp ∈ subpolygons c →
                    layer sp ∈ layers c ∧ is_Some (polys h !! polygon sp))
           ∧ (∀ sc, sc ∈ subcomponents c →
                    tree_wf h n' (component sc)
                    ∧ ∃ lm child,
                        dicts h !! layermap sc = Some lm
                        ∧ compos h !! component sc = Some child
                        ∧ (∀ l, l ∈ layers child → is_Some (lm !! l))
                        ∧ (∀ l l', l ∈ layers child →
                                   lm !! l = Some (Some l') → l' ∈ layers c))
  end.

End Flattening.

(** **** Bounding boxes *)

(** [m] is a greatest, or a least, element of [xs]. *)
Definition is_max (xs : list Q) (m : Q) : Prop :=
  m ∈ xs ∧ ∀ x, x ∈ xs → (x <= m)%Q.

Definition is_min (xs : list Q) (m : Q) : Prop :=
  m ∈ xs ∧ ∀ x, x ∈ xs → (m <= x)%Q.

(** A point with finite coordinates, as a row of an xyarray. *)
Definition finite_point (p : Q * Q) : BBox.num * BBox.num :=
  (BBox.Fin p.1, BBox.Fin p.2).

(** The fields of a bounding box the points [pts], and no other, were added
    to. *)
Definition accumulated (pts : list (Q * Q)) (b : BBox.BBox) : Prop :=
  match pts with
  | [] =>
      BBox.max_x b = BBox.NegInf ∧ BBox.max_y b = BBox.NegInf
      ∧ BBox.min_x b = BBox.PosInf ∧ BBox.min_y b = BBox.PosInf
  | _ =>
      ∃ Mx My mx my,
        is_max pts.*1 Mx ∧ is_max pts.*2 My
        ∧ is_min pts.*1 mx ∧ is_min pts.*2 my
        ∧ BBox.max_x b = BBox.Fin Mx ∧ BBox.max_y b = BBox.Fin My
        ∧ BBox.min_x b = BBox.Fin mx ∧ BBox.min_y b = BBox.Fin my
  end.


End Spec.

(** *** Vocabulary for whole stores *)

Module StoreSpec.

Section Stores.

Import Draw.

Context {Polygon Transform : Type}.

(** What the attach methods keep true of a component: every subpolygon lies
    on one of its layers and refers to a polygon of the store; every
    attachment refers to a component and to a dictionary of the store, and
    the dictionary is defined on every layer of the child and sends each to a
    layer of the component or to [None]. *)
Definition component_wf (h : Heap Polygon Transform)
    (c : Component Transform) : Prop :=
  (∀ sp, sp ∈ subpolygons c →
         layer sp ∈ layers c ∧ is_Some (polys h !! polygon sp))
  ∧ (∀ sc, sc ∈ subcomponents c →
           ∃ lm child,
             dicts h !! layermap sc = Some lm
             ∧ compos h !! component sc = Some child
             ∧ (∀ l, l ∈ layers child → is_Some (lm !! l))
             ∧ (∀ l l', l ∈ layers child →
                        lm !! l = Some (Some l') → l' ∈ layers c)).

Definition store_wf (h : Heap Polygon Transform) : Prop :=
  ∀ i c, compos h !! i = Some c → component_wf h c.

(** [rank] decreases along every attachment: the store has no cycle. *)
Definition ranked (h : Heap Polygon Transform) (rank : loc → nat) : Prop :=
  ∀ i c sc, compos h !! i = Some c → sc ∈ subcomponents c →
            rank (component sc) < rank i.

(** A computation whose only effect on the store is to allocate polygons:
    whatever its outcome, every component, dictionary and polygon of the
    store is as it was, and nothing is logged. *)
Definition only_allocates {A} (m : ST (Heap Polygon Transform) A) : Prop :=
  ∀ h, Spec.extends h (m h).2.

(** From every instance of [P] an attachment leads to an instance of [P]:
    following attachments from there never ends, so, the store being finite,
    runs into a cycle. *)
Definition endless (h : Heap Polygon Transform) (P : loc → Prop) : Prop :=
  ∀ i, P i → ∃ c sc, compos h !! i = Some c ∧ sc ∈ subcomponents c
                     ∧ P (component sc).

End Stores.

End StoreSpec.

(** *** Vocabulary for anchors of a bounding box *)

Module BBoxSpec.



End BBoxSpec.

(** *** Concrete classes and stores used to exercise the model *)

Module Examples.

Import Options.

(** [class Options(dict)] of [Component], then [dict] and [object]. *)
Definition Component_Options : class :=
  {| issubclass_Options := true; vars := [] |}.
Definition dict_class : class :=
  {| issubclass_Options := false; vars := [] |}.
Definition object_class : class :=
  {| issubclass_Options := false; vars := [] |}.

(** [class Options(Component.Options): width = pc.Option(1); height = pc.Option(1)] *)
Definition Rect_Options : class :=
  {| issubclass_Options := true;
     vars := [("__module__"%string, OtherAttribute);
              ("width"%string, Option_ (VInt 1));
              ("height"%string, Option_ (VInt 1))] |}.

(** [class Options(Rect.Options): width = pc.Option(2)] *)
Definition Wide_Options : class :=
  {| issubclass_Options := true;
     vars := [("__module__"%string, OtherAttribute);
              ("width"%string, Option_ (VInt 2))] |}.

Definition Rect_mro : list class :=
  [Rect_Options; Component_Options; dict_class; object_class].

Definition Wide_mro : list class :=
  [Wide_Options; Rect_Options; Component_Options; dict_class; object_class].


Import Draw.

(** Polygons as lists of integer points, transforms as translations. *)
Definition Polygon : Type := list (Z * Z).
Definition Transform : Type := Z * Z.

Definition translate (t : Transform) (p : Polygon) : Polygon :=
  (λ xy, (xy.1 + t.1, xy.2 + t.2)%Z) <$> p.

Definition origin : Transform := (0, 0)%Z.

Definition triangle : Polygon := [(0, 0); (4, 0); (0, 3)]%Z.
Definition square : Polygon := [(0, 0); (1, 0); (1, 1); (0, 1)]%Z.

(** A store with four instances: [x] (0) of a template with layers A and B,
    owning [triangle] on A and [square] on B and placed at (10, 0); [y] (1)
    of a template with the one layer C, placed at (0, 5); an instance (2)
    with layers D and E; an instance (3) with the one layer D.  Its
    dictionaries: A to C (0); A to C and B to [None] (1); A to a layer that
    [y] does not have (2); C to A (3). *)
Definition world : Heap Polygon Transform :=
  mkHeap
    [mkComponent ∅ ["A"; "B"]%string (10, 0)%Z []
                 [mkSubpolygon 0 "A"; mkSubpolygon 1 "B"];
     mkComponent ∅ ["C"%string] (0, 5)%Z [] [];
     mkComponent ∅ ["D"; "E"]%string origin [] [];
     mkComponent ∅ ["D"%string] origin [] []]
    [{["A"%string := Some "C"%string]};
     {["A"%string := Some "C"%string; "B"%string := None]};
     {["A"%string := Some "nope"%string]};
     {["C"%string := Some "A"%string]}]
    [triangle; square]
    [].

(** [y.add_subcomponent(x, {A: C})] in [world]. *)
Definition world_attached : Heap Polygon Transform :=
  (add_subcomponent 1 0 (ShDict 0) world).2.

(** A rank on the instances of [world_attached]: [y] lies above [x]. *)
Definition height_in_world (i : loc) : nat :=
  match i with
  | 1 => 1
  | _ => 0
  end.

(** [x.add_subcomponent(x)] in [world]. *)
Definition world_self_attached : Heap Polygon Transform :=
  (add_subcomponent 0 0 ShNone world).2.

(** A template declaring the options width and height and the layer A; its
    generator attaches the polygon 0. *)
Definition Rect_class : ComponentClass Polygon Transform :=
  mkComponentClass Rect_mro ["A"%string]
                   (λ self, add_subpolygon self 0 ShNone).

(** [BBox([(0, 0), (4, 0), (4, 3), (0, 3)])] in an empty store. *)
Definition corners : list (Q * Q) := [(0, 0); (4, 0); (4, 3); (0, 3)]%Q.

Definition boxes : list BBox.BBox :=
  (BBox.__init__ (Some (Spec.finite_point <$> corners)) None []).2.

End Examples.

(** ** Part II: theorems *)

(** *** Component.Options *)

Module OptionsFacts.

Import Options.

Lemma foldl_declare_other (items : list (string * attribute))
    (self : gmap string value) (name : string) :
  name ∉ items.*1 → foldl declare self items !! name = self !! name.
Proof.
  revert self. induction items as [|[k a] items IH]; intros self Hn; [done|].
  cbn in Hn. apply not_elem_of_cons in Hn as [Hk Hn]. cbn.
  rewrite IH by done. unfold declare; cbn.
  destruct a; [by rewrite lookup_insert_ne|done].
Qed.

Lemma foldl_declare_option (items : list (string * attribute))
    (self : gmap string value) (name : string) (default : value) :
  NoDup items.*1 → (name, Option_ default) ∈ items →
  foldl declare self items !! name = Some default.
Proof.
  revert self. induction items as [|[k a] items IH]; intros self Hnd Hin.
  - by apply elem_of_nil in Hin.
  - cbn in Hnd. apply NoDup_cons in Hnd as [Hk Hnd].
    apply elem_of_cons in Hin as [Heq|Hin]; cbn.
    + injection Heq as <- <-. rewrite foldl_declare_other by done.
      unfold declare; cbn. by rewrite lookup_insert_eq.
    + by apply IH.
Qed.

Lemma declare_mro_other (mro : list class) (self : gmap string value)
    (name : string) :
  (∀ c, c ∈ mro → name ∉ (vars c).*1) →
  declare_mro mro self !! name = self !! name.
Proof.
  revert self. induction mro as [|c mro IH]; intros self Hn; [done|].
  cbn. destruct (issubclass_Options c); cbn; [|done].
  rewrite IH by (intros; apply Hn; by right).
  apply foldl_declare_other, Hn. by left.
Qed.

(** The overrides are written over the declared defaults one by one: the
    result is the overrides, and the defaults where nothing overrides. *)
Lemma foldl_setitem_union (items : list (string * value))
    (self : gmap string value) :
  NoDup items.*1 →
  foldl (λ self item, <[item.1 := item.2]> self) self items
  = list_to_map items ∪ self.
Proof.
  revert self. induction items as [|[k v] items IH]; intros self Hnd.
  - cbn. by rewrite (left_id_L ∅ (∪)).
  - cbn in Hnd. apply NoDup_cons in Hnd as [Hk Hnd]. cbn.
    rewrite IH by done. apply map_eq; intros i.
    rewrite !lookup_union. destruct (decide (i = k)) as [->|Hik].
    + rewrite !lookup_insert_eq.
      rewrite (not_elem_of_list_to_map_1 _ k) by done.
      by destruct (self !! k).
    + by rewrite !lookup_insert_ne.
Qed.

Lemma init_overlay (mro : list class) (values resolved : gmap string value) :
  __init__ mro (Some values) = Return resolved →
  resolved = values ∪ declare_mro mro ∅.
Proof.
  unfold __init__. case_decide; [done|]. intros [= <-].
  rewrite foldl_setitem_union by apply NoDup_fst_map_to_list.
  by rewrite list_to_map_to_list.
Qed.

Lemma init_raises_iff (mro : list class) (values : gmap string value) :
  (∃ e, __init__ mro (Some values) = Raise e)
  ↔ ∃ k, k ∈ dom values ∧ k ∉ dom (declare_mro mro ∅).
Proof.
  unfold __init__. case_decide as Hu; split.
  - intros _. apply set_choose_L in Hu as [k Hk]. exists k. set_solver.
  - eauto.
  - intros [e He]. done.
  - intros [k [Hk1 Hk2]]. exfalso.
    assert (k ∈ dom values ∖ dom (declare_mro mro ∅)) as Hin by set_solver.
    rewrite Hu in Hin. set_solver.
Qed.

(** C2 (as the code has it).  Where a refining [Options] class and the class
    it refines both declare an option, an instance built without an override
    holds the default of the refined class, the ancestor: the loop of
    [Options.__init__] walks the method resolution order from the most derived
    class on and assigns [self[name]] at every class, so the assignment of
    the ancestor comes last and stays. *)
Theorem Options_ancestor_default_overwrites_descendant
    (descendant ancestor : class) (rest : list class) (name : string)
    (a : value) :
  issubclass_Options descendant = true →
  issubclass_Options ancestor = true →
  NoDup (vars ancestor).*1 →
  (name, Option_ a) ∈ vars ancestor →
  (∀ c, c ∈ rest → name ∉ (vars c).*1) →
  ∃ resolved,
    __init__ (descendant :: ancestor :: rest) None = Return resolved
    ∧ resolved !! name = Some a.
Proof.
  intros Hd Ha Hnd Hin Hrest. eexists; split; [reflexivity|].
  cbn. rewrite Hd, Ha; cbn.
  rewrite declare_mro_other by done.
  by apply foldl_declare_option.
Qed.

(** The failing input of C2: [Wide.Options] redeclares [width] with default 2
    over [Rect.Options], whose default is 1; [Wide()] resolves [width] to 1. *)
Lemma Options_ancestor_default_overwrites_descendant_witness :
  ("width"%string, Option_ (VInt 2)) ∈ vars Examples.Wide_Options
  ∧ ∃ resolved,
      __init__ Examples.Wide_mro None = Return resolved
      ∧ resolved !! "width"%string = Some (VInt 1).
Proof.
  split; [compute_done|].
  apply (Options_ancestor_default_overwrites_descendant
           Examples.Wide_Options Examples.Rect_Options
           [Examples.Component_Options; Examples.dict_class;
            Examples.object_class] "width"%string (VInt 1)).
  - reflexivity.
  - reflexivity.
  - compute_done.
  - compute_done.
  - intros c Hc. repeat (apply elem_of_cons in Hc as [->|Hc]; [compute_done|]).
    by apply elem_of_nil in Hc.
Defined.

End OptionsFacts.

(** *** Running monadic code *)

Module PyFacts.

Import Spec.

Lemma run_bind {S A B} (m : ST S A) (k : A → ST S B) (s : S) :
  (m ≫= k) s
  = match m s with
    | (Return a, s') => k a s'
    | (Raise e, s') => (Raise e, s')
    end.
Proof. reflexivity. Qed.

Lemma run_ret {S A} (a : A) (s : S) : (mret a : ST S A) s = (Return a, s).
Proof. reflexivity. Qed.

Lemma run_raise {S A} (e : exn) (s : S) : (raise e : ST S A) s = (Raise e, s).
Proof. reflexivity. Qed.

Lemma preserves_ret {S A X} (f : S → X) (a : A) : preserves f (mret a : ST S A).
Proof. done. Qed.

Lemma preserves_raise {S A X} (f : S → X) (e : exn) :
  preserves f (raise e : ST S A).
Proof. done. Qed.

Lemma preserves_bind {S A B X} (f : S → X) (m : ST S A) (k : A → ST S B) :
  preserves f m → (∀ a, preserves f (k a)) → preserves f (m ≫= k).
Proof.
  intros Hm Hk s. rewrite run_bind. specialize (Hm s).
  destruct (m s) as [[a|e] s']; cbn in *; [|done].
  by rewrite Hk.
Qed.

Lemma preserves_for_each {S A X} (f : S → X) (xs : list A)
    (body : A → ST S unit) :
  (∀ x, preserves f (body x)) → preserves f (for_each xs body).
Proof.
  intros Hb. induction xs as [|x xs IH]; [done|].
  cbn [for_each]. apply preserves_bind; [apply Hb|done].
Qed.

Lemma preserves_comprehension {S A B X} (f : S → X) (xs : list A)
    (elt : A → ST S (option B)) :
  (∀ x, preserves f (elt x)) → preserves f (comprehension xs elt).
Proof.
  intros Hb. induction xs as [|x xs IH]; [done|].
  cbn [comprehension]. apply preserves_bind; [apply Hb|intros y].
  apply preserves_bind; [done|intros ys]. apply preserves_ret.
Qed.

Lemma preserves_nested_comprehension {S A B X} (f : S → X) (xs : list A)
    (inner : A → ST S (list B)) :
  (∀ x, preserves f (inner x)) → preserves f (nested_comprehension xs inner).
Proof.
  intros Hb. induction xs as [|x xs IH]; [done|].
  cbn [nested_comprehension]. apply preserves_bind; [apply Hb|intros y].
  apply preserves_bind; [done|intros ys]. apply preserves_ret.
Qed.

(** One step of a proof that a computation preserves a part of the store:
    through the control structure, down to the primitives [prims]. *)
Ltac preserves_step prims :=
  lazymatch goal with
  | |- preserves _ (mbind _ _) => apply preserves_bind; [|intros ?]
  | |- preserves _ (mret _) => apply preserves_ret
  | |- preserves _ (raise _) => apply preserves_raise
  | |- preserves _ (for_each _ _) => apply preserves_for_each; intros ?
  | |- preserves _ (comprehension _ _) =>
      apply preserves_comprehension; intros ?
  | |- preserves _ (nested_comprehension _ _) =>
      apply preserves_nested_comprehension; intros ?
  | |- preserves _ (match ?x with _ => _ end) => destruct x
  | |- preserves _ _ => intros ?; prims; repeat case_match; done
  end.

End PyFacts.

(** *** The layer-map resolver and attachment *)

Module DrawFacts.

Import Draw Spec PyFacts.

Lemma dict_zip_diag_lookup (ks : list string) (l : string) :
  dict_zip ks ks !! l = if decide (l ∈ ks) then Some (Some l) else None.
Proof.
  unfold dict_zip. induction ks as [|k ks IH]; cbn.
  - rewrite lookup_empty. by rewrite decide_False by apply not_elem_of_nil.
  - destruct (decide (l = k)) as [->|Hne].
    + rewrite lookup_insert_eq. by rewrite decide_True by left.
    + rewrite lookup_insert_ne by done. rewrite IH.
      destruct (decide (l ∈ ks)) as [Hin|Hin].
      * by rewrite decide_True by (by right).
      * rewrite decide_False; [done|]. by intros [?|?]%elem_of_cons.
Qed.

Lemma dict_zip_diag_dom (ks : list string) :
  dom (dict_zip ks ks) = list_to_set ks.
Proof.
  apply set_eq; intros l. rewrite elem_of_dom, dict_zip_diag_lookup.
  rewrite elem_of_list_to_set.
  destruct (decide (l ∈ ks)); split; intros Hx;
    first [done | by eexists | by destruct Hx as [? ?]].
Qed.

(** The dictionary after [d[l] = None] for every [l] of [missing]. *)
Lemma discard_all_lookup (missing : list string)
    (m : gmap string (option string)) (k : string) :
  foldl (λ m l, <[l := None]> m) m missing !! k
  = if decide (k ∈ missing) then Some None else m !! k.
Proof.
  revert m. induction missing as [|l missing IH]; intros m; cbn.
  - by rewrite decide_False by apply not_elem_of_nil.
  - rewrite IH. destruct (decide (k ∈ missing)) as [Hin|Hin].
    + by rewrite decide_True by (by right).
    + destruct (decide (k = l)) as [->|Hne].
      * rewrite lookup_insert_eq. by rewrite decide_True by left.
      * rewrite lookup_insert_ne by done.
        rewrite decide_False; [done|]. by intros [?|?]%elem_of_cons.
Qed.

Section Resolver.

Context {Polygon Transform : Type}.
Context (apply_transform : Transform → Polygon → Polygon).
Context (identity : Transform).

Abbreviation Heap := (Draw.Heap Polygon Transform).
Abbreviation Component := (Draw.Component Transform).
Abbreviation M := (ST Heap).

(** The loop that pads a layer map writes [None] under every missing layer
    of the dictionary [d] itself and logs one warning for each. *)
Lemma pad_loop (missing : list string) (d child parent : loc)
    (m : gmap string (option string)) (h : Heap) :
  dicts h !! d = Some m →
  for_each missing
    (λ missing_layer,
       emit (WarningThrowingAway missing_layer child parent);;
       dict_setitem d missing_layer None) h
  = (Return tt,
     mkHeap (compos h)
            (<[d := foldl (λ m l, <[l := None]> m) m missing]> (dicts h))
            (polys h)
            (log h ++ ((λ l, WarningThrowingAway l child parent) <$> missing))).
Proof.
  revert m h. induction missing as [|l missing IH]; intros m h Hd.
  - cbn. rewrite app_nil_r, list_insert_id by done. by destruct h.
  - cbn [for_each]. rewrite run_bind. unfold emit at 1.
    rewrite run_bind. unfold dict_setitem at 1. cbn. rewrite Hd.
    erewrite IH; cbn.
    + rewrite list_insert_insert_eq. by rewrite <- app_assoc.
    + apply list_lookup_insert_eq. by eapply lookup_lt_Some.
Qed.


(** [set(layermap_shorthand.values()).issubset(parent_layers)] *)
Lemma values_in_layers_spec (parent_layers : gset string)
    (m : gmap string (option string)) :
  forallb (value_in_layers parent_layers) (map_to_list m).*2 = true
  ↔ ∀ k v, m !! k = Some v → ∃ l, v = Some l ∧ l ∈ parent_layers.
Proof.
  rewrite forallb_forall. split.
  - intros Hall k v Hkv.
    assert (value_in_layers parent_layers v = true) as Hv.
    { apply Hall, list_elem_of_In, list_elem_of_fmap.
      exists (k, v). split; [done|]. by apply elem_of_map_to_list. }
    destruct v as [l|]; [|done]. exists l. split; [done|].
    by apply bool_decide_eq_true in Hv.
  - intros Hall v Hv. apply list_elem_of_In, list_elem_of_fmap in Hv.
    destruct Hv as ([k v'] & -> & Hkv). apply elem_of_map_to_list in Hkv.
    destruct (Hall _ _ Hkv) as (l & -> & Hl). by apply bool_decide_eq_true.
Qed.

(** Absent shorthand, the layers of the child among those of the parent: a
    new dictionary mapping every child layer to itself, and nothing logged. *)
Lemma parse_absent_subset (h : Heap) (parent child : loc) (p c : Component) :
  compos h !! parent = Some p → compos h !! child = Some c →
  list_to_set (layers c) ⊆@{gset string} list_to_set (layers p) →
  parse_subcomponent_layermap_shorthand parent child ShNone h
  = (Return (length (dicts h)),
     mkHeap (compos h)
            (dicts h ++ [dict_zip (elements (list_to_set (layers c) : gset string))
                                  (elements (list_to_set (layers c) : gset string))])
            (polys h) (log h)).
Proof.
  intros Hp Hc Hsub. unfold parse_subcomponent_layermap_shorthand.
  rewrite run_bind. unfold get_component at 1. rewrite Hp.
  rewrite run_bind. unfold get_component at 1. rewrite Hc.
  rewrite run_bind. rewrite decide_True by done.
  unfold new_dict at 1. rewrite run_bind. unfold get_dict at 1. cbn [dicts].
  rewrite list_lookup_middle by done.
  rewrite dict_zip_diag_dom, list_to_set_elements_L, difference_diag_L.
  rewrite elements_empty. reflexivity.
Qed.

(** Dictionary shorthand passing both checks: the dictionary [d] itself is
    padded in the store and returned. *)
Lemma parse_dict_valid (h : Heap) (parent child d : loc) (p c : Component)
    (m : gmap string (option string)) :
  compos h !! parent = Some p → compos h !! child = Some c →
  dicts h !! d = Some m →
  dom m ⊆ list_to_set (layers c) →
  (∀ k v, m !! k = Some v → ∃ l, v = Some l ∧ l ∈ layers p) →
  parse_subcomponent_layermap_shorthand parent child (ShDict d) h
  = (Return d,
     mkHeap (compos h)
            (<[d := foldl (λ m l, <[l := None]> m) m
                          (elements (list_to_set (layers c) ∖ dom m))]> (dicts h))
            (polys h)
            (log h ++ ((λ l, WarningThrowingAway l child parent)
                         <$> elements (list_to_set (layers c) ∖ dom m)))).
Proof.
  intros Hp Hc Hd Hkeys Hvals. unfold parse_subcomponent_layermap_shorthand.
  rewrite run_bind. unfold get_component at 1. rewrite Hp.
  rewrite run_bind. unfold get_component at 1. rewrite Hc.
  rewrite run_bind. rewrite run_bind. unfold get_dict at 1. rewrite Hd.
  rewrite decide_False by (by intros Hn; apply Hn).
  assert (forallb (value_in_layers (list_to_set (layers p)))
                  (map_to_list m).*2 = true) as ->.
  { apply values_in_layers_spec. intros k v Hkv.
    destruct (Hvals _ _ Hkv) as (l & -> & Hl). exists l.
    by rewrite elem_of_list_to_set. }
  cbn [negb]. rewrite run_ret.
  rewrite run_bind. unfold get_dict at 1. rewrite Hd.
  rewrite run_bind. erewrite pad_loop by done. reflexivity.
Qed.


Ltac unfold_primitives :=
  unfold get_component, set_component, new_component, get_dict, dict_setitem,
    new_dict, get_polygon_value, new_polygon, emit, Polygon_apply_transform.

(** The resolver reads components and never writes one. *)
Lemma parse_preserves_compos (parent child : loc) (sh : shorthand) :
  preserves (compos (Polygon := Polygon) (Transform := Transform))
            (parse_subcomponent_layermap_shorthand parent child sh).
Proof.
  unfold parse_subcomponent_layermap_shorthand.
  repeat preserves_step unfold_primitives.
Qed.

(** Absent shorthand, one child layer and one parent layer that differ: a new
    dictionary mapping the one to the other, and a debug record. *)
Lemma parse_absent_singletons (h : Heap) (parent child : loc)
    (p c : Component) (cl pl : string) :
  compos h !! parent = Some p → compos h !! child = Some c →
  list_to_set (layers c) =@{gset string} {[cl]} →
  list_to_set (layers p) =@{gset string} {[pl]} →
  cl ≠ pl →
  parse_subcomponent_layermap_shorthand parent child ShNone h
  = (Return (length (dicts h)),
     mkHeap (compos h) (dicts h ++ [{[cl := Some pl]}]) (polys h)
            (log h ++ [DebugSoleLayermap {[cl]} child {[pl]} parent])).
Proof.
  intros Hp Hc Hcl Hpl Hne. unfold parse_subcomponent_layermap_shorthand.
  rewrite run_bind. unfold get_component at 1. rewrite Hp.
  rewrite run_bind. unfold get_component at 1. rewrite Hc.
  rewrite Hcl, Hpl. rewrite run_bind.
  rewrite decide_False
    by (intros Hs; apply Hne; specialize (Hs cl);
        rewrite !elem_of_singleton in Hs; by apply Hs).
  rewrite decide_True by (by rewrite !size_singleton).
  rewrite run_bind. unfold emit at 1. unfold new_dict at 1.
  rewrite run_bind. unfold get_dict at 1. cbn [dicts].
  rewrite list_lookup_middle by done.
  rewrite !elements_singleton. unfold dict_zip. cbn [fmap list_fmap zip zip_with list_to_map foldr uncurry].
  rewrite insert_empty, dom_singleton_L, difference_diag_L, elements_empty.
  reflexivity.
Qed.


(** C4.  Resolving an absent layer-map shorthand.  (1) When the layers of the
    child are among those of the parent, the result is a dictionary mapping
    every child layer to itself and nothing else, and nothing is logged.
    (2) Otherwise, when each of the two sets has one layer, the result maps
    the sole child layer to the sole parent layer; the only record logged is
    a debug record, no warning.  (3) In every other case the call raises the
    exception that asks for a layer map, naming both layer sets, and the
    store is as before. *)
Theorem resolve_absent_layermap (h : Heap) (parent child : loc)
    (p c : Component) :
  compos h !! parent = Some p → compos h !! child = Some c →
  let parent_layers : gset string := list_to_set (layers p) in
  let child_layers : gset string := list_to_set (layers c) in
  (child_layers ⊆ parent_layers →
   ∃ d h' m,
     parse_subcomponent_layermap_shorthand parent child ShNone h = (Return d, h')
     ∧ dicts h' !! d = Some m
     ∧ (∀ l, m !! l = if decide (l ∈ child_layers) then Some (Some l) else None)
     ∧ log h' = log h)
  ∧ (child_layers ⊈ parent_layers →
     size parent_layers = 1 → size child_layers = 1 →
     ∃ cl pl d h',
       child_layers = {[cl]} ∧ parent_layers = {[pl]}
       ∧ parse_subcomponent_layermap_shorthand parent child ShNone h
         = (Return d, h')
       ∧ dicts h' !! d = Some {[cl := Some pl]}
       ∧ filter is_warning (log h') = filter is_warning (log h))
  ∧ (child_layers ⊈ parent_layers →
     ¬ (size parent_layers = 1 ∧ size child_layers = 1) →
     parse_subcomponent_layermap_shorthand parent child ShNone h
     = (Raise (Exception (MustSpecifyLayermap child_layers child
                                              parent_layers parent)), h)
     ∧ AmbiguousLayerMap
         (Exception (MustSpecifyLayermap child_layers child
                                         parent_layers parent))).
Proof.
  intros Hp Hc parent_layers child_layers. split; [|split].
  - intros Hsub. eexists _, _, _. split; [by eapply parse_absent_subset|].
    cbn [dicts log]. split; [by apply list_lookup_middle|]. split; [|done].
    intros l. rewrite dict_zip_diag_lookup.
    destruct (decide (l ∈ child_layers)) as [Hin|Hin].
    + by rewrite decide_True by (by apply elem_of_elements).
    + by rewrite decide_False by (by rewrite elem_of_elements).
  - intros Hsub Hsp Hsc.
    apply size_1_elem_of in Hsp as [pl Hpl], Hsc as [cl Hcl].
    apply leibniz_equiv in Hpl, Hcl.
    assert (cl ≠ pl) as Hne.
    { intros ->. apply Hsub. by rewrite Hpl, Hcl. }
    exists cl, pl. eexists _, _. split; [done|]. split; [done|].
    split; [by eapply parse_absent_singletons|].
    cbn [dicts log]. split; [by apply list_lookup_middle|].
    rewrite filter_app. cbn. by rewrite app_nil_r.
  - intros Hsub Hsize. split; [|by eexists _, _, _, _].
    unfold parse_subcomponent_layermap_shorthand.
    rewrite run_bind. unfold get_component at 1. rewrite Hp.
    rewrite run_bind. unfold get_component at 1. rewrite Hc.
    rewrite run_bind. fold parent_layers child_layers.
    rewrite decide_False by done.
    rewrite decide_False by (intros [? ?]; apply Hsize; split; congruence).
    reflexivity.
Qed.


(** The padded dictionary, key by key. *)
Lemma padded_lookup (m : gmap string (option string))
    (child_layers : gset string) (l : string) :
  foldl (λ m l, <[l := None]> m) m (elements (child_layers ∖ dom m)) !! l
  = match m !! l with
    | Some v => Some v
    | None => if decide (l ∈ child_layers) then Some None else None
    end.
Proof.
  rewrite discard_all_lookup.
  destruct (m !! l) as [v|] eqn:Hl.
  - rewrite decide_False; [done|].
    rewrite elem_of_elements, elem_of_difference, elem_of_dom.
    intros [_ Hn]. apply Hn. by eexists.
  - destruct (decide (l ∈ child_layers)) as [Hin|Hin].
    + rewrite decide_True; [done|].
      rewrite elem_of_elements, elem_of_difference, elem_of_dom.
      split; [done|]. rewrite Hl. by intros [? ?].
    + rewrite decide_False; [done|].
      rewrite elem_of_elements, elem_of_difference. by intros [? _].
Qed.

(** C5.  Resolving a dictionary shorthand [d] holding [m].  (1) When some key
    of [m] is no layer of the child, or some value of [m] is no layer of the
    parent ([None] is none), the call raises one of the two exceptions of an
    invalid layer map and the store is as before.  (2) Otherwise the resolved
    map holds every entry of [m]; every child layer without an entry is
    mapped to [None], with exactly one warning logged for it; its keys are exactly
    the layers of the child.  The resolved map is a function of [m] and of
    the child's layers alone: the warnings are only appended to the log, and
    nothing else of the store changes. *)
Theorem resolve_full_mapping (h : Heap) (parent child d : loc)
    (p c : Component) (m : gmap string (option string)) :
  compos h !! parent = Some p → compos h !! child = Some c →
  dicts h !! d = Some m →
  let parent_layers : gset string := list_to_set (layers p) in
  let child_layers : gset string := list_to_set (layers c) in
  ((dom m ⊈ child_layers
    ∨ ∃ k v, m !! k = Some v ∧ ∀ l, v = Some l → l ∉ parent_layers) →
   ∃ e, parse_subcomponent_layermap_shorthand parent child (ShDict d) h
        = (Raise e, h)
        ∧ InvalidLayerMap e)
  ∧ (dom m ⊆ child_layers →
     (∀ k v, m !! k = Some v → ∃ l, v = Some l ∧ l ∈ parent_layers) →
     ∃ h' m',
       parse_subcomponent_layermap_shorthand parent child (ShDict d) h
       = (Return d, h')
       ∧ dicts h' !! d = Some m'
       ∧ (∀ k v, m !! k = Some v → m' !! k = Some v)
       ∧ (∀ l, l ∈ child_layers → m !! l = None →
               m' !! l = Some None
               ∧ WarningThrowingAway l child parent ∈ log h')
       ∧ dom m' = child_layers
       ∧ (∀ l, m' !! l = match m !! l with
                         | Some v => Some v
                         | None => if decide (l ∈ child_layers)
                                   then Some None else None
                         end)
       ∧ (∃ warnings,
            log h' = log h ++ warnings ∧ NoDup warnings
            ∧ ∀ r, r ∈ warnings
                   ↔ ∃ l, l ∈ child_layers ∧ m !! l = None
                          ∧ r = WarningThrowingAway l child parent)
       ∧ compos h' = compos h ∧ polys h' = polys h
       ∧ ∀ d', d' ≠ d → dicts h' !! d' = dicts h !! d').
Proof.
  intros Hp Hc Hd parent_layers child_layers. split.
  - intros Hbad. unfold parse_subcomponent_layermap_shorthand.
    rewrite run_bind. unfold get_component at 1. rewrite Hp.
    rewrite run_bind. unfold get_component at 1. rewrite Hc.
    rewrite run_bind. rewrite run_bind. unfold get_dict at 1. rewrite Hd.
    fold parent_layers child_layers.
    destruct (decide (dom m ⊆ child_layers)) as [Hkeys|Hkeys].
    + rewrite decide_False by (by intros Hn; apply Hn).
      destruct Hbad as [?|(k & v & Hkv & Hv)]; [done|].
      destruct (forallb (value_in_layers parent_layers) (map_to_list m).*2)
        eqn:Hall.
      * pose proof (proj1 (values_in_layers_spec _ _) Hall) as Hall'.
        destruct (Hall' _ _ Hkv) as (l & -> & Hl). by destruct (Hv l).
      * eexists. split; [reflexivity|]. right. by left.
    + rewrite decide_True by done.
      eexists. split; [reflexivity|]. by left.
  - intros Hkeys Hvals. eexists _, _. split.
    { eapply parse_dict_valid; try done. intros k v Hkv.
      destruct (Hvals _ _ Hkv) as (l & -> & Hl). exists l.
      split; [done|]. by apply elem_of_list_to_set in Hl. }
    cbn [dicts log compos polys]. fold child_layers.
    split; [apply list_lookup_insert_eq; by eapply lookup_lt_Some|].
    split; [|split; [|split; [|split; [|split; [|split; [|split]]]]]]; try done.
    + intros k v Hkv. by rewrite padded_lookup, Hkv.
    + intros l Hl Hnone. rewrite padded_lookup, Hnone.
      rewrite decide_True by done. split; [done|].
      apply elem_of_app. right. apply list_elem_of_fmap. exists l.
      split; [done|]. rewrite elem_of_elements, elem_of_difference.
      split; [done|]. rewrite elem_of_dom, Hnone. by intros [? ?].
    + apply set_eq; intros l. rewrite elem_of_dom, padded_lookup.
      destruct (m !! l) as [v|] eqn:Hl.
      * split; [|by eexists]. intros _. apply Hkeys, elem_of_dom. by eexists.
      * destruct (decide (l ∈ child_layers)); split;
          first [done | by eexists | by intros [? ?]].
    + intros l. apply padded_lookup.
    + eexists. split; [reflexivity|]. split.
      { apply NoDup_fmap_2; [by intros ? ? [=]|apply NoDup_elements]. }
      intros r. rewrite list_elem_of_fmap. split.
      * intros (l & -> & Hl). exists l.
        rewrite elem_of_elements, elem_of_difference, elem_of_dom in Hl.
        destruct Hl as [Hl Hn]. split; [done|]. split; [|done].
        destruct (m !! l); [|done]. destruct Hn. by eexists.
      * intros (l & Hl & Hn & ->). exists l. split; [done|].
        rewrite elem_of_elements, elem_of_difference, elem_of_dom, Hn.
        split; [done|]. by intros [? ?].
    + intros d' Hne. by apply list_lookup_insert_ne.
Qed.


(** [add_subcomponent] once the resolver has returned: one attachment is
    appended to the list of [self]. *)
Lemma add_subcomponent_returns (h h1 : Heap) (self component lm : loc)
    (sh : shorthand) (p : Component) :
  compos h !! self = Some p →
  parse_subcomponent_layermap_shorthand self component sh h = (Return lm, h1) →
  add_subcomponent self component sh h
  = (Return tt,
     mkHeap (<[self := mkComponent (options p) (layers p) (transform p)
                         (subcomponents p ++ [mkSubcomponent component lm])
                         (subpolygons p)]> (compos h))
            (dicts h1) (polys h1) (log h1)).
Proof.
  intros Hp Hparse. unfold add_subcomponent. rewrite run_bind, Hparse.
  pose proof (parse_preserves_compos self component sh h) as Hcompos.
  rewrite Hparse in Hcompos. cbn in Hcompos.
  rewrite run_bind. unfold get_component. rewrite Hcompos, Hp.
  unfold set_component. by rewrite Hcompos.
Qed.

(** [add_subcomponent] when the resolver raises: the exception propagates
    and no component has changed. *)
Lemma add_subcomponent_raises (h h1 : Heap) (self component : loc)
    (sh : shorthand) (e : exn) :
  parse_subcomponent_layermap_shorthand self component sh h = (Raise e, h1) →
  add_subcomponent self component sh h = (Raise e, h1) ∧ compos h1 = compos h.
Proof.
  intros Hparse. unfold add_subcomponent. rewrite run_bind, Hparse.
  split; [done|].
  pose proof (parse_preserves_compos self component sh h) as Hcompos.
  by rewrite Hparse in Hcompos.
Qed.

(** C1 (as the code has it).  [add_subcomponent] has no check of ancestry: its
    outcome is that of the layer-map resolver.  Whatever the instance attached
    (the parent itself and its ancestors included), when the resolver raises,
    the call raises the same exception and every component, so every
    attachment list, is as before; when the resolver returns a layer map, the
    call succeeds and the list of the parent grows by that one attachment.
    Attaching an instance to itself with no layer map always succeeds, under
    a new dictionary mapping each of its layers to itself. *)
Theorem add_subcomponent_has_no_cycle_check (h : Heap) (parent : loc)
    (p : Component) :
  compos h !! parent = Some p →
  (∀ instance sh,
     match parse_subcomponent_layermap_shorthand parent instance sh h with
     | (Raise e, h1) =>
         add_subcomponent parent instance sh h = (Raise e, h1)
         ∧ compos h1 = compos h
     | (Return lm, h1) =>
         ∃ h2, add_subcomponent parent instance sh h = (Return tt, h2)
               ∧ compos h2 !! parent
                 = Some (mkComponent (options p) (layers p) (transform p)
                           (subcomponents p ++ [mkSubcomponent instance lm])
                           (subpolygons p))
               ∧ ∀ other, other ≠ parent → compos h2 !! other = compos h !! other
     end)
  ∧ ∃ h2 m,
      add_subcomponent parent parent ShNone h = (Return tt, h2)
      ∧ compos h2 !! parent
        = Some (mkComponent (options p) (layers p) (transform p)
                  (subcomponents p ++ [mkSubcomponent parent (length (dicts h))])
                  (subpolygons p))
      ∧ dicts h2 !! length (dicts h) = Some m
      ∧ ∀ l, m !! l = if decide (l ∈ layers p) then Some (Some l) else None.
Proof.
  intros Hp. split.
  - intros instance sh.
    destruct (parse_subcomponent_layermap_shorthand parent instance sh h)
      as [[lm|e] h1] eqn:Hparse.
    + eexists. split; [by eapply add_subcomponent_returns|]. cbn [compos].
      split; [apply list_lookup_insert_eq; by eapply lookup_lt_Some|].
      intros other Hne. by apply list_lookup_insert_ne.
    + by apply add_subcomponent_raises.
  - eexists _, _. split.
    { eapply add_subcomponent_returns; [done|].
      by eapply parse_absent_subset. }
    cbn [compos dicts].
    split; [apply list_lookup_insert_eq; by eapply lookup_lt_Some|].
    split; [by apply list_lookup_middle|].
    intros l. rewrite dict_zip_diag_lookup.
    destruct (decide (l ∈ layers p)) as [Hin|Hin].
    + rewrite decide_True; [done|].
      by rewrite elem_of_elements, elem_of_list_to_set.
    + rewrite decide_False; [done|].
      by rewrite elem_of_elements, elem_of_list_to_set.
Qed.

(** C10.  A dictionary shorthand that passes both checks is not copied: the
    resolver returns the reference it was given, the attachment holds that
    same reference, no dictionary is created, and the caller's dictionary
    itself now holds [None] under every child layer it had no entry for.  So
    where a child layer was missing, the caller's dictionary has changed. *)
Theorem dict_shorthand_is_padded_in_place (h : Heap) (parent child d : loc)
    (p c : Component) (m : gmap string (option string)) :
  compos h !! parent = Some p → compos h !! child = Some c →
  dicts h !! d = Some m →
  dom m ⊆ list_to_set (layers c) →
  (∀ k v, m !! k = Some v → ∃ l, v = Some l ∧ l ∈ layers p) →
  ∃ h1 h2 m',
    parse_subcomponent_layermap_shorthand parent child (ShDict d) h
    = (Return d, h1)
    ∧ add_subcomponent parent child (ShDict d) h = (Return tt, h2)
    ∧ (∃ p', compos h2 !! parent = Some p'
             ∧ subcomponents p' = subcomponents p ++ [mkSubcomponent child d])
    ∧ length (dicts h2) = length (dicts h)
    ∧ dicts h2 !! d = Some m'
    ∧ (∀ l, m' !! l = match m !! l with
                      | Some v => Some v
                      | None => if decide (l ∈ layers c)
                                then Some None else None
                      end)
    ∧ ((∃ l, l ∈ layers c ∧ m !! l = None) → m' ≠ m).
Proof.
  intros Hp Hc Hd Hkeys Hvals. eexists _, _, _.
  split; [by eapply parse_dict_valid|].
  split; [eapply add_subcomponent_returns; [done|by eapply parse_dict_valid]|].
  cbn [compos dicts].
  split.
  { eexists. split; [apply list_lookup_insert_eq; by eapply lookup_lt_Some|].
    done. }
  split; [by rewrite length_insert|].
  split; [apply list_lookup_insert_eq; by eapply lookup_lt_Some|].
  assert (∀ l, foldl (λ m l, <[l := None]> m) m
                 (elements (list_to_set (layers c) ∖ dom m)) !! l
               = match m !! l with
                 | Some v => Some v
                 | None => if decide (l ∈ layers c) then Some None else None
                 end) as Hlookup.
  { intros l. rewrite padded_lookup. destruct (m !! l); [done|].
    destruct (decide (l ∈ layers c)) as [Hin|Hin].
    - by rewrite decide_True by (by apply elem_of_list_to_set).
    - by rewrite decide_False by (by rewrite elem_of_list_to_set). }
  split; [done|].
  intros (l & Hl & Hnone) Heq.
  specialize (Hlookup l). rewrite Heq, Hnone in Hlookup.
  by rewrite decide_True in Hlookup.
Qed.

(** C3.  [Options.__init__] with overrides [values] raises exactly when some
    key of [values] is no declared option; the exception is then
    [UnknownOptionSuppliedError] and carries all those keys together with the
    declared names.  [Component.__init__] then raises it too, before an
    instance exists: it returns none and the store is untouched.  With every
    key declared, the options resolve to the overrides over the defaults. *)
Theorem unknown_option_iff (cls : ComponentClass Polygon Transform)
    (values : gmap string value) (h : Heap) :
  let declared := dom (Options.declare_mro (Options_mro cls) ∅) in
  ((∃ e, Options.__init__ (Options_mro cls) (Some values) = Raise e)
   ↔ ∃ k, k ∈ dom values ∧ k ∉ declared)
  ∧ ((∃ k, k ∈ dom values ∧ k ∉ declared) →
     ∃ unknown,
       (∀ k, k ∈ unknown ↔ k ∈ dom values ∧ k ∉ declared)
       ∧ Options.__init__ (Options_mro cls) (Some values)
         = Raise (UnknownOptionSuppliedError unknown declared)
       ∧ UnknownOption (UnknownOptionSuppliedError unknown declared)
       ∧ Component_init identity cls (Some values) h
         = (Raise (UnknownOptionSuppliedError unknown declared), h))
  ∧ ((∀ k, k ∈ dom values → k ∈ declared) →
     Options.__init__ (Options_mro cls) (Some values)
     = Return (values ∪ Options.declare_mro (Options_mro cls) ∅)).
Proof.
  intros declared. split; [apply OptionsFacts.init_raises_iff|]. split.
  - intros Hex. exists (dom values ∖ declared).
    split; [intros k; by rewrite elem_of_difference|].
    assert (Options.__init__ (Options_mro cls) (Some values)
            = Raise (UnknownOptionSuppliedError (dom values ∖ declared)
                                                declared)) as Hinit.
    { unfold Options.__init__. fold declared. rewrite decide_True; [done|].
      destruct Hex as (k & Hk & Hn). intros Heq.
      assert (k ∈ dom values ∖ declared) as Hin
        by (by apply elem_of_difference).
      rewrite Heq in Hin. by apply not_elem_of_empty in Hin. }
    split; [done|]. split; [by eexists _, _|].
    unfold Component_init. rewrite run_bind. unfold lift. by rewrite Hinit.
  - intros Hall.
    destruct (Options.__init__ (Options_mro cls) (Some values))
      as [resolved|e] eqn:Hinit.
    + f_equal. by apply OptionsFacts.init_overlay.
    + assert (∃ e, Options.__init__ (Options_mro cls) (Some values) = Raise e)
        as Hr by (by eexists).
      apply OptionsFacts.init_raises_iff in Hr as (k & Hk & Hn).
      destruct Hn. by apply Hall.
Qed.

End Resolver.

End DrawFacts.

(** *** Flattening *)

Module FlattenFacts.

Import Draw Spec PyFacts.

Section Refinement.

Context {Polygon Transform : Type}.
Context (apply_transform : Transform → Polygon → Polygon).

Abbreviation Heap := (Draw.Heap Polygon Transform).
Abbreviation Component := (Draw.Component Transform).
Abbreviation M := (ST Heap).

Lemma extends_refl (h : Heap) : extends h h.
Proof. by repeat split. Qed.

Lemma extends_trans (h1 h2 h3 : Heap) :
  extends h1 h2 → extends h2 h3 → extends h1 h3.
Proof.
  intros (Hc1 & Hd1 & Hl1 & Hp1) (Hc2 & Hd2 & Hl2 & Hp2).
  repeat split; try congruence. by etrans.
Qed.

Lemma extends_alloc (h : Heap) (v : Polygon) :
  extends h (mkHeap (compos h) (dicts h) (polys h ++ [v]) (log h)).
Proof. repeat split. by apply prefix_app_r. Qed.

Lemma extends_lookup (h h' : Heap) (p : loc) (v : Polygon) :
  extends h h' → polys h !! p = Some v → polys h' !! p = Some v.
Proof. intros (_ & _ & _ & Hp) Hv. by eapply prefix_lookup_Some. Qed.

Lemma extends_length (h h' : Heap) :
  extends h h' → length (polys h) ≤ length (polys h').
Proof. intros (_ & _ & _ & Hp). by apply prefix_length. Qed.

Lemma has_value_extends (h h' : Heap) (sp : Subpolygon)
    (v : Polygon * string) :
  extends h h' → has_value h sp v → has_value h' sp v.
Proof. intros Hext [Hl Hp]. split; [done|]. by eapply extends_lookup. Qed.

Lemma fresh_in_extends (h0 h : Heap) (sp : Subpolygon) :
  extends h0 h → fresh_in h sp → fresh_in h0 sp.
Proof. intros Hext Hf. apply extends_length in Hext. unfold fresh_in in *. lia. Qed.

(** A comprehension that copies the polygons it keeps: run on subpolygons
    carrying [vals], in a store that extends [h0], it returns new subpolygons
    carrying [relabel look f vals] and only allocates. *)
Lemma comprehension_copies (h0 : Heap) (look : string → option (option string))
    (f : Polygon → Polygon) (elt : Subpolygon → M (option Subpolygon)) :
  (∀ sp v h r, extends h0 h → has_value h sp v → look v.2 = Some r →
     elt sp h
     = match r with
       | None => (Return None, h)
       | Some l =>
           (Return (Some (mkSubpolygon (length (polys h)) l)),
            mkHeap (compos h) (dicts h) (polys h ++ [f v.1]) (log h))
       end) →
  ∀ xs vals h,
    extends h0 h → Forall2 (has_value h) xs vals →
    Forall (λ v, is_Some (look v.2)) vals →
    ∃ out h',
      comprehension xs elt h = (Return out, h')
      ∧ extends h h'
      ∧ Forall2 (has_value h') out (relabel look f vals)
      ∧ Forall (fresh_in h) out.
Proof.
  intros Helt xs. induction xs as [|sp xs IH]; intros vals h Hext HF Hlook.
  - apply Forall2_nil_inv_l in HF as ->.
    exists [], h. repeat split; try done; by constructor.
  - apply Forall2_cons_inv_l in HF as (v & vals' & Hv & Hvals & ->).
    apply Forall_cons in Hlook as [[r Hr] Hlook].
    cbn [comprehension]. rewrite run_bind.
    rewrite (Helt sp v h r) by done.
    destruct r as [l|].
    + set (h1 := mkHeap (compos h) (dicts h) (polys h ++ [f v.1]) (log h)).
      assert (extends h h1) as Hext1 by apply extends_alloc.
      destruct (IH vals' h1) as (out & h' & Hrun & Hext' & Hout & Hfresh).
      { by eapply extends_trans. }
      { eapply Forall2_impl; [done|]. intros ? ?. by apply has_value_extends. }
      { done. }
      rewrite run_bind, Hrun.
      eexists _, _. split; [reflexivity|].
      split; [by eapply extends_trans|].
      unfold relabel. cbn [omap list_omap]. rewrite Hr.
      split.
      * constructor; [|done]. split; [done|]. cbn.
        eapply extends_lookup; [done|]. by apply list_lookup_middle.
      * constructor; [unfold fresh_in; cbn; lia|].
        eapply Forall_impl; [done|]. intros ? ?.
        by eapply fresh_in_extends.
    + destruct (IH vals' h) as (out & h' & Hrun & Hext' & Hout & Hfresh);
        [done..|].
      rewrite run_bind, Hrun.
      eexists _, _. split; [reflexivity|]. split; [done|].
      unfold relabel. cbn [omap list_omap]. by rewrite Hr.
Qed.

(** A comprehension over the subcomponents, each contributing a list. *)
Lemma nested_copies (h0 : Heap) (inner : Subcomponent → M (list Subpolygon))
    (vals_of : Subcomponent → list (Polygon * string))
    (scs : list Subcomponent) :
  (∀ sc, sc ∈ scs → ∀ h, extends h0 h →
     ∃ out h', inner sc h = (Return out, h') ∧ extends h h'
               ∧ Forall2 (has_value h') out (vals_of sc)
               ∧ Forall (fresh_in h) out) →
  ∀ h, extends h0 h →
    ∃ out h',
      nested_comprehension scs inner h = (Return out, h')
      ∧ extends h h'
      ∧ Forall2 (has_value h') out (scs ≫= vals_of)
      ∧ Forall (fresh_in h) out.
Proof.
  induction scs as [|sc scs IH]; intros Hinner h Hext.
  - exists [], h. repeat split; try done; by constructor.
  - destruct (Hinner sc (list_elem_of_here _ _) h Hext)
      as (ys & h1 & Hrun1 & Hext1 & Hys & Hfresh1).
    destruct (IH (λ sc' Hin, Hinner sc' (list_elem_of_further _ _ _ Hin)) h1)
      as (zs & h' & Hrun2 & Hext2 & Hzs & Hfresh2);
      [by eapply extends_trans|].
    cbn [nested_comprehension]. rewrite run_bind, Hrun1, run_bind, Hrun2.
    eexists _, _. split; [reflexivity|].
    split; [by eapply extends_trans|]. split.
    + cbn. apply Forall2_app; [|done].
      eapply Forall2_impl; [done|]. intros ? ?. by apply has_value_extends.
    + apply Forall_app. split; [done|].
      eapply Forall_impl; [done|]. intros ? ?. by eapply fresh_in_extends.
Qed.

Lemma relabel_layers (look : string → option (option string))
    (f : Polygon → Polygon) (vals : list (Polygon * string)) :
  Forall (λ v, ∃ v0, v0 ∈ vals ∧ look v0.2 = Some (Some v.2))
         (relabel look f vals).
Proof.
  induction vals as [|v vals IH]; [by constructor|].
  unfold relabel. cbn [omap list_omap].
  assert (Forall (λ w, ∃ v0, v0 ∈ v :: vals ∧ look v0.2 = Some (Some w.2))
                 (relabel look f vals)) as Htl.
  { eapply Forall_impl; [done|]. intros w (v0 & Hin & Hl). exists v0.
    split; [by right|done]. }
  destruct (look v.2) as [[l|]|] eqn:Hl; [|done..].
  constructor; [|done]. exists v. split; [by left|done].
Qed.

Lemma relabel_keep (vals : list (Polygon * string)) :
  relabel (λ l, Some (Some l)) id vals = vals.
Proof.
  induction vals as [|[v l] vals IH]; [done|].
  unfold relabel in *. cbn [omap list_omap]. cbn. f_equal. apply IH.
Qed.

Lemma own_contents_values (h0 h : Heap) (sps : list Subpolygon) :
  extends h0 h →
  (∀ sp, sp ∈ sps → is_Some (polys h0 !! polygon sp)) →
  Forall2 (has_value h) sps (own_contents h0 sps).
Proof.
  intros Hext. induction sps as [|sp sps IH]; intros Hvalid; [by constructor|].
  destruct (Hvalid sp (list_elem_of_here _ _)) as [v Hv].
  unfold own_contents. cbn [omap list_omap]. rewrite Hv. cbn.
  constructor.
  - split; [done|]. by eapply extends_lookup.
  - apply IH. intros sp' Hin. apply Hvalid. by right.
Qed.

Lemma own_contents_layers (h0 : Heap) (sps : list Subpolygon) :
  Forall (λ v, ∃ sp, sp ∈ sps ∧ v.2 = layer sp) (own_contents h0 sps).
Proof.
  induction sps as [|sp sps IH]; [by constructor|].
  unfold own_contents. cbn [omap list_omap].
  assert (Forall (λ v, ∃ sp0, sp0 ∈ sp :: sps ∧ v.2 = layer sp0)
                 (own_contents h0 sps)) as Htl.
  { eapply Forall_impl; [done|]. intros v (sp0 & Hin & Hl). exists sp0.
    split; [by right|done]. }
  destruct (polys h0 !! polygon sp) as [v|]; cbn; [|done].
  constructor; [|done]. exists sp. split; [by left|done].
Qed.

Lemma get_polygon_run (h : Heap) (sp : Subpolygon) (v : Polygon) :
  polys h !! polygon sp = Some v →
  Subpolygon_get_polygon sp h
  = (Return (length (polys h)),
     mkHeap (compos h) (dicts h) (polys h ++ [v]) (log h)).
Proof.
  intros Hv. unfold Subpolygon_get_polygon, Polygon_copy. rewrite run_bind.
  unfold get_polygon_value. by rewrite Hv.
Qed.

Lemma transform_copy_run (h : Heap) (v : Polygon) (t : Transform) :
  Polygon_apply_transform apply_transform (length (polys h)) t
    (mkHeap (compos h) (dicts h) (polys h ++ [v]) (log h))
  = (Return (length (polys h)),
     mkHeap (compos h) (dicts h) (polys h ++ [apply_transform t v]) (log h)).
Proof.
  unfold Polygon_apply_transform. cbn [polys compos dicts log].
  rewrite list_lookup_middle by done.
  rewrite insert_app_r_alt by done. by rewrite Nat.sub_diag.
Qed.


(** [Subcomponent.get_subpolygons], given what the recursive call returns. *)
Lemma subcomponent_refines (h0 : Heap) (rec : loc → M (list Subpolygon))
    (sc : Subcomponent) (lm : gmap string (option string))
    (child_vals : list (Polygon * string)) :
  dicts h0 !! layermap sc = Some lm →
  Forall (λ v, is_Some (lm !! v.2)) child_vals →
  (∀ h, extends h0 h →
     ∃ out h', rec (component sc) h = (Return out, h') ∧ extends h h'
               ∧ Forall2 (has_value h') out child_vals
               ∧ Forall (fresh_in h) out) →
  ∀ h, extends h0 h →
    ∃ out h',
      Subcomponent_get_subpolygons rec sc h = (Return out, h')
      ∧ extends h h'
      ∧ Forall2 (has_value h') out (relabel (lm !!.) id child_vals)
      ∧ Forall (fresh_in h) out.
Proof.
  intros Hd Htotal Hrec h Hext.
  destruct (Hrec h Hext) as (ys & h1 & Hrun1 & Hext1 & Hys & _).
  unfold Subcomponent_get_subpolygons. rewrite run_bind, Hrun1.
  edestruct (comprehension_copies h0 (lm !!.) id) as
    (out & h' & Hrun & Hext' & Hout & Hfresh);
    [| |exact Hys|exact Htotal|].
  2: { by eapply extends_trans. }
  2: { rewrite Hrun. eexists _, _. split; [reflexivity|].
       split; [by eapply extends_trans|]. split; [done|].
       eapply Forall_impl; [done|]. intros ? ?. by eapply fresh_in_extends. }
  intros sp v h2 r Hext2 [Hl Hv] Hr. rewrite run_bind.
  assert (dicts h2 !! layermap sc = Some lm) as Hd2
    by (by destruct Hext2 as (_ & -> & _ & _)).
  unfold get_dict at 1. rewrite Hd2.
  rewrite Hl. cbn beta in Hr. rewrite Hr. destruct r as [l|]; [|done].
  rewrite run_bind. by erewrite get_polygon_run.
Qed.

(** The source's [get_subpolygons] computes [contents]: on a well-formed
    tree of depth at most [n], with at least as much fuel, run in any store
    that extends [h0], it returns, and what it returns are new polygons
    carrying exactly [contents n h0 self flag], in that order; the store is
    only extended. *)
Lemma flatten_refines (n : nat) (h0 : Heap) :
  ∀ (self : loc) (flag : bool),
    tree_wf h0 n self →
    (∃ c, compos h0 !! self = Some c
          ∧ Forall (λ v, v.2 ∈ layers c)
                   (contents apply_transform n h0 self flag))
    ∧ ∀ fuel h,
        n ≤ fuel → extends h0 h →
        ∃ out h',
          Component_get_subpolygons apply_transform fuel self None flag h
          = (Return out, h')
          ∧ extends h h'
          ∧ Forall2 (has_value h') out (contents apply_transform n h0 self flag)
          ∧ Forall (fresh_in h) out.
Proof.
  induction n as [|n IH]; intros self flag Hwf; [done|].
  destruct Hwf as (c & Hc & Hown & Hsub).
  cbn [contents]. rewrite Hc.
  set (vals_of := λ sc : Subcomponent,
         match dicts h0 !! layermap sc with
         | Some lm =>
             relabel (lm !!.) id
                     (contents apply_transform n h0 (component sc) true)
         | None => []
         end).
  set (look := (dict_zip (layers c) (layers c) !!.)).
  set (f := if flag then apply_transform (transform c) else id).
  (* every piece of geometry that reaches the last comprehension lies on a
     layer of the component *)
  assert (Forall (λ v, v.2 ∈ layers c)
                 (subcomponents c ≫= vals_of)) as Hinner_layers.
  { apply Forall_forall. intros v Hv.
    apply list_elem_of_bind in Hv as (sc & Hv & Hsc).
    destruct (Hsub sc Hsc) as (Hwf & lm & child & Hlm & Hchild & _ & Hinto).
    destruct (IH (component sc) true Hwf) as [(c' & Hc' & Hlayers) _].
    assert (c' = child) as -> by congruence.
    unfold vals_of in Hv. rewrite Hlm in Hv.
    pose proof (relabel_layers (lm !!.) id
                  (contents apply_transform n h0 (component sc) true)) as Hl.
    rewrite Forall_forall in Hl. destruct (Hl v Hv) as (v0 & Hv0 & Hl0).
    rewrite Forall_forall in Hlayers.
    eapply Hinto; [|exact Hl0]. by apply Hlayers. }
  assert (Forall (λ v, v.2 ∈ layers c) (own_contents h0 (subpolygons c)))
    as Hown_layers.
  { eapply Forall_impl; [apply own_contents_layers|].
    intros v (sp & Hsp & ->). by apply Hown. }
  assert (Forall (λ v, is_Some (look v.2))
                 ((subcomponents c ≫= vals_of)
                  ++ own_contents h0 (subpolygons c))) as Hlook.
  { apply Forall_app. split; (eapply Forall_impl; [done|]); intros v Hv;
      unfold look; rewrite DrawFacts.dict_zip_diag_lookup, decide_True by done;
      by eexists. }
  split.
  - exists c. split; [done|].
    eapply Forall_impl; [apply relabel_layers|].
    intros v (v0 & _ & Hl0). unfold look in Hl0.
    rewrite DrawFacts.dict_zip_diag_lookup in Hl0.
    case_decide; [|done]. by injection Hl0 as <-.
  - intros fuel h Hfuel Hext. destruct fuel as [|fuel]; [lia|].
    cbn [Component_get_subpolygons]. rewrite run_bind.
    unfold get_component at 1.
    assert (compos h !! self = Some c) as Hc1
      by (by destruct Hext as (-> & _ & _ & _)).
    rewrite Hc1.
    rewrite run_bind, run_ret.
    (* the subcomponents *)
    edestruct (nested_copies h0
                 (Subcomponent_get_subpolygons
                    (λ child, Component_get_subpolygons apply_transform fuel
                                child None true))
                 vals_of (subcomponents c))
      as (inner & h1 & Hrun1 & Hext1 & Hinner & Hfresh1); [|exact Hext|].
    { intros sc Hsc.
      destruct (Hsub sc Hsc) as (Hwf & lm & child & Hlm & Hchild & Htotal & _).
      destruct (IH (component sc) true Hwf) as [(c' & Hc' & Hlayers) Hrun].
      assert (c' = child) as -> by congruence.
      unfold vals_of. rewrite Hlm.
      apply subcomponent_refines; [done| |].
      - eapply Forall_impl; [done|]. intros v Hv. by apply Htotal.
      - intros h2 Hext2. apply Hrun; [lia|done]. }
    rewrite run_bind, Hrun1.
    (* the subpolygons owned *)
    edestruct (comprehension_copies h0 (λ l, Some (Some l)) id
                 (λ subpoly_inner_2,
                    subpoly ← Subpolygon_get_subpolygon subpoly_inner_2;
                    mret (Some subpoly)))
      as (own & h2 & Hrun2 & Hext2 & Hown_vals & Hfresh2);
      [|by eapply (extends_trans h0 h h1)
       |by apply (own_contents_values h0 h1), (λ sp Hsp, proj2 (Hown sp Hsp));
           eapply extends_trans
       |by apply Forall_forall; intros; eexists|].
    { intros sp v h3 r Hext3 [Hl Hv] [= <-]. rewrite run_bind.
      unfold Subpolygon_get_subpolygon. rewrite run_bind.
      unfold Polygon_copy. rewrite run_bind. unfold get_polygon_value.
      rewrite Hv. unfold new_polygon. rewrite run_ret, run_ret.
      by rewrite Hl. }
    rewrite relabel_keep in Hown_vals.
    rewrite run_bind, Hrun2.
    (* the comprehension that relabels and transforms *)
    edestruct (comprehension_copies h0 look f) as
      (out & h' & Hrun & Hext' & Hout & Hfresh);
      [| |apply Forall2_app; [|exact Hown_vals]|exact Hlook|].
    2: { eapply extends_trans; [|done]. by eapply extends_trans. }
    2: { eapply Forall2_impl; [exact Hinner|]. intros ? ?.
         by apply has_value_extends. }
    2: { rewrite Hrun. eexists _, _. split; [reflexivity|].
         split; [eapply extends_trans; [|done]; by eapply extends_trans|].
         split; [done|].
         eapply Forall_impl; [done|]. intros ? ?.
         eapply fresh_in_extends; [|done]. by eapply extends_trans. }
    intros sp v h3 r Hext3 [Hl Hv] Hr. rewrite Hl.
    unfold look in Hr. rewrite Hr. destruct r as [l|]; [|done].
    rewrite run_bind. erewrite get_polygon_run by done.
    rewrite run_bind. unfold f. destruct flag.
    + by rewrite transform_copy_run.
    + done.
Qed.


(** Two lists related to a common third are related to each other. *)
Lemma Forall2_common {A B C} (P : A → C → Prop) (Q : B → C → Prop)
    (xs : list A) (ys : list B) (vs : list C) :
  Forall2 P xs vs → Forall2 Q ys vs →
  Forall2 (λ x y, ∃ v, P x v ∧ Q y v) xs ys.
Proof.
  intros HP. revert ys. induction HP as [|x v xs vs Hx HP IH]; intros ys HQ.
  - apply Forall2_nil_inv_r in HQ as ->. constructor.
  - apply Forall2_cons_inv_r in HQ as (y & ys' & Hy & HQ & ->).
    constructor; [by exists v|by apply IH].
Qed.

(** C7.  Flattening a well-formed instance tree twice, with nothing done to
    it in between, gives the same output: both calls return, the two lists
    have the same length, and element for element the layers are equal and
    the polygons carry the same geometry (each call returns polygon objects
    of its own).  What is returned is [contents], a function of the tree
    alone; the first call leaves every component and layer map as it was, and
    the amount of fuel does not matter once it covers the depth of the
    tree. *)
Theorem flatten_twice_same_output (h : Heap) (self : loc)
    (n fuel1 fuel2 : nat) (flag : bool) :
  tree_wf h n self → n ≤ fuel1 → n ≤ fuel2 →
  ∃ out1 h1 out2 h2,
    Component_get_subpolygons apply_transform fuel1 self None flag h
    = (Return out1, h1)
    ∧ Component_get_subpolygons apply_transform fuel2 self None flag h1
      = (Return out2, h2)
    ∧ compos h1 = compos h ∧ dicts h1 = dicts h
    ∧ Forall2 (λ sp1 sp2,
                 layer sp1 = layer sp2
                 ∧ ∃ v, polys h1 !! polygon sp1 = Some v
                        ∧ polys h2 !! polygon sp2 = Some v)
              out1 out2
    ∧ Forall2 (has_value h1) out1 (contents apply_transform n h self flag)
    ∧ Forall2 (has_value h2) out2 (contents apply_transform n h self flag).
Proof.
  intros Hwf Hfuel1 Hfuel2.
  destruct (flatten_refines n h self flag Hwf) as [_ Hrun].
  destruct (Hrun fuel1 h Hfuel1 (extends_refl h))
    as (out1 & h1 & Hrun1 & Hext1 & Hout1 & _).
  destruct (Hrun fuel2 h1 Hfuel2 Hext1)
    as (out2 & h2 & Hrun2 & Hext2 & Hout2 & _).
  exists out1, h1, out2, h2. split; [done|]. split; [done|].
  destruct Hext1 as (Hcompos & Hdicts & _ & _).
  split; [done|]. split; [done|]. split; [|done].
  eapply Forall2_impl; [exact (Forall2_common _ _ _ _ _ Hout1 Hout2)|].
  intros sp1 sp2 (v & [Hl1 Hv1] & [Hl2 Hv2]). split; [congruence|].
  by exists v.1.
Qed.

(** An instance with two owned polygons on its two layers, attached to an
    instance with one layer under a map defined on both layers, is a
    well-formed tree of depth two. *)
Lemma two_level_tree_wf (h : Heap) (x y pa pb lm : loc)
    (a b : Polygon) (tx ty : Transform) (ox oy : gmap string value)
    (A B C : string) (m : gmap string (option string)) :
  compos h !! x
  = Some (mkComponent ox [A; B] tx []
                      [mkSubpolygon pa A; mkSubpolygon pb B]) →
  compos h !! y = Some (mkComponent oy [C] ty [mkSubcomponent x lm] []) →
  polys h !! pa = Some a → polys h !! pb = Some b →
  dicts h !! lm = Some m →
  m !! A = Some (Some C) → m !! B = Some None →
  tree_wf h 2 y.
Proof.
  intros Hx Hy Hpa Hpb Hlm HA HB.
  eexists. split; [exact Hy|]. cbn [subpolygons subcomponents layers].
  split; [by intros sp ?%elem_of_nil|].
  intros sc ->%list_elem_of_singleton. cbn [component layermap]. split.
  - eexists. split; [exact Hx|]. cbn [subpolygons subcomponents layers].
    split; [|by intros sc ?%elem_of_nil].
    intros sp [->|[->|?%elem_of_nil]%elem_of_cons]%elem_of_cons;
      [| |done]; cbn [layer polygon].
    + split; [by left|by eexists].
    + split; [right; by left|by eexists].
  - eexists _, _. split; [exact Hlm|]. split; [exact Hx|].
    cbn [layers]. split.
    + intros l [->|[->|?%elem_of_nil]%elem_of_cons]%elem_of_cons;
        [by eexists..|done].
    + intros l l' [->|[->|?%elem_of_nil]%elem_of_cons]%elem_of_cons Hl;
        [| |done].
      * rewrite HA in Hl. injection Hl as <-. by left.
      * by rewrite HB in Hl.
Qed.

(** C6.  [x] is an instance with layers [A] and [B] owning the polygon [a]
    on [A] and the polygon [b] on [B]; [y] is an instance with the one layer
    [C] whose only attachment is [x], under a layer map sending [A] to [C]
    and [B] to discard.  Flattening [y] returns exactly one subpolygon, on
    layer [C]; its polygon is a new object, no polygon of the store before
    the call, and carries [a] transformed by the transform of [x] (the
    placement of [x]), and then by the transform of [y] itself when
    [do_apply_transform] is set; with [_get_subpolygons], the coordinate
    space of [y], it is [a] under the placement of [x] alone.  Nothing of [b]
    is returned, and the store is only extended. *)
Theorem flatten_discards_unmapped_layer (h : Heap) (x y pa pb lm : loc)
    (a b : Polygon) (tx ty : Transform) (ox oy : gmap string value)
    (A B C : string) (m : gmap string (option string))
    (fuel : nat) (flag : bool) :
  compos h !! x
  = Some (mkComponent ox [A; B] tx []
                      [mkSubpolygon pa A; mkSubpolygon pb B]) →
  compos h !! y = Some (mkComponent oy [C] ty [mkSubcomponent x lm] []) →
  polys h !! pa = Some a → polys h !! pb = Some b →
  dicts h !! lm = Some m →
  m !! A = Some (Some C) → m !! B = Some None →
  2 ≤ fuel →
  ∃ p h',
    Component_get_subpolygons apply_transform fuel y None flag h
    = (Return [mkSubpolygon p C], h')
    ∧ polys h' !! p
      = Some ((if flag then apply_transform ty else id) (apply_transform tx a))
    ∧ length (polys h) ≤ p
    ∧ extends h h'
    ∧ (flag = false →
       _get_subpolygons apply_transform fuel y h
       = (Return [mkSubpolygon p C], h')).
Proof.
  intros Hx Hy Hpa Hpb Hlm HA HB Hfuel.
  assert (tree_wf h 2 y) as Hwf by by eapply two_level_tree_wf.
  destruct (flatten_refines 2 h y flag Hwf) as [_ Hrun].
  destruct (Hrun fuel h Hfuel (extends_refl h))
    as (out & h' & Hrun1 & Hext & Hout & Hfresh).
  assert (contents apply_transform 2 h y flag
          = [((if flag then apply_transform ty else id) (apply_transform tx a),
              C)]) as Hcontents.
  { cbn [contents]. rewrite Hy. cbn [subcomponents subpolygons layers transform].
    cbn [mbind list_bind component layermap]. rewrite Hlm, Hx.
    cbn [subcomponents subpolygons layers transform mbind list_bind].
    unfold own_contents. cbn [omap list_omap polygon layer app].
    rewrite Hpa, Hpb. cbn [fmap option_fmap option_map].
    unfold relabel. cbn [omap list_omap fst snd].
    rewrite !DrawFacts.dict_zip_diag_lookup.
    rewrite (decide_True (P := A ∈ [A; B])) by (by left).
    rewrite (decide_True (P := B ∈ [A; B])) by (right; by left).
    cbn [omap list_omap fst snd]. rewrite HA, HB.
    cbn [omap list_omap fst snd app].
    rewrite DrawFacts.dict_zip_diag_lookup.
    rewrite (decide_True (P := C ∈ [C])) by (by left).
    destruct flag; reflexivity. }
  rewrite Hcontents in Hout.
  apply Forall2_cons_inv_r in Hout as (sp & out' & [Hl Hv] & Hnil & ->).
  apply Forall2_nil_inv_r in Hnil as ->.
  apply Forall_cons in Hfresh as [Hfresh _].
  destruct sp as [p l]. cbn in Hl, Hv, Hfresh. subst l.
  exists p, h'. split; [done|]. split; [done|]. split; [done|].
  split; [done|]. intros ->. done.
Qed.

End Refinement.

End FlattenFacts.

(** *** BBox *)

Module BBoxFacts.

Import BBox Spec PyFacts.

Lemma is_max_singleton (x : Q) : is_max [x] x.
Proof.
  split; [by left|]. intros x' ->%list_elem_of_singleton. apply Qle_refl.
Qed.

Lemma is_min_singleton (x : Q) : is_min [x] x.
Proof.
  split; [by left|]. intros x' ->%list_elem_of_singleton. apply Qle_refl.
Qed.

Lemma is_max_snoc (xs : list Q) (M x : Q) :
  is_max xs M →
  is_max (xs ++ [x]) (if negb (Qle_bool x M) then x else M).
Proof.
  intros [Hin Hle]. destruct (Qle_bool x M) eqn:Hx; cbn.
  - apply Qle_bool_iff in Hx. split; [apply elem_of_app; by left|].
    intros x' [?| ->%list_elem_of_singleton]%elem_of_app; [by apply Hle|done].
  - assert (M <= x)%Q as HMx.
    { apply Qlt_le_weak, Qnot_le_lt. intros Hle'.
      apply Qle_bool_iff in Hle'. congruence. }
    split; [apply elem_of_app; right; by left|].
    intros x' [?| ->%list_elem_of_singleton]%elem_of_app.
    + eapply Qle_trans; [by apply Hle|done].
    + apply Qle_refl.
Qed.

Lemma is_min_snoc (xs : list Q) (m x : Q) :
  is_min xs m →
  is_min (xs ++ [x]) (if negb (Qle_bool m x) then x else m).
Proof.
  intros [Hin Hle]. destruct (Qle_bool m x) eqn:Hx; cbn.
  - apply Qle_bool_iff in Hx. split; [apply elem_of_app; by left|].
    intros x' [?| ->%list_elem_of_singleton]%elem_of_app; [by apply Hle|done].
  - assert (x <= m)%Q as Hxm.
    { apply Qlt_le_weak, Qnot_le_lt. intros Hle'.
      apply Qle_bool_iff in Hle'. congruence. }
    split; [apply elem_of_app; right; by left|].
    intros x' [?| ->%list_elem_of_singleton]%elem_of_app.
    + eapply Qle_trans; [done|by apply Hle].
    + apply Qle_refl.
Qed.



(** [add_point] with a finite point: the box of [self] is replaced by one
    that accounts for the point as well. *)
Lemma add_point_accumulates (s : list BBox) (self : loc) (b : BBox)
    (pts : list (Q * Q)) (p : Q * Q) :
  s !! self = Some b → accumulated pts b →
  ∃ b', add_point self (finite_point p) s = (Return tt, <[self := b']> s)
        ∧ accumulated (pts ++ [p]) b'
        ∧ _transformable b' = _transformable b.
Proof.
  intros Hs Hacc. unfold add_point. rewrite run_bind. unfold get. rewrite Hs.
  unfold put. eexists. split; [reflexivity|].
  destruct b as [Mx My mx my t], p as [x y].
  destruct pts as [|p0 pts]; cbn in Hacc.
  - destruct Hacc as (-> & -> & -> & ->). cbn. split; [|done].
    exists x, y, x, y. repeat split; first [by left | by intros ? ->%list_elem_of_singleton; apply Qle_refl | done].
  - destruct Hacc as (Mx' & My' & mx' & my' & HMx & HMy & Hmx & Hmy
                      & -> & -> & -> & ->).
    pose proof (is_max_snoc _ _ x HMx) as HMx1.
    pose proof (is_max_snoc _ _ y HMy) as HMy1.
    pose proof (is_min_snoc _ _ x Hmx) as Hmx1.
    pose proof (is_min_snoc _ _ y Hmy) as Hmy1.
    unfold accumulated. rewrite !fmap_app. cbn -[Qle_bool].
    destruct (Qle_bool x Mx'); cbn -[Qle_bool] in *;
      destruct (Qle_bool mx' x); cbn -[Qle_bool] in *;
      destruct (Qle_bool y My'); cbn -[Qle_bool] in *;
      destruct (Qle_bool my' y); cbn -[Qle_bool] in *;
      (split; [|done]); eexists _, _, _, _; done.
Qed.


Lemma add_xyarray_accumulates (pts : list (Q * Q)) :
  ∀ (s : list BBox) (self : loc) (b : BBox) (pts0 : list (Q * Q)),
    s !! self = Some b → accumulated pts0 b →
    ∃ b', add_xyarray self (finite_point <$> pts) s
          = (Return tt, <[self := b']> s)
          ∧ accumulated (pts0 ++ pts) b'
          ∧ _transformable b' = _transformable b.
Proof.
  unfold add_xyarray.
  induction pts as [|p pts IH]; intros s self b pts0 Hs Hacc.
  - exists b. cbn. rewrite list_insert_id by done. by rewrite app_nil_r.
  - destruct (add_point_accumulates s self b pts0 p Hs Hacc)
      as (b1 & Hrun1 & Hacc1 & Ht1).
    destruct (IH (<[self := b1]> s) self b1 (pts0 ++ [p])) as
      (b2 & Hrun2 & Hacc2 & Ht2); [|done|].
    { apply list_lookup_insert_eq. by eapply lookup_lt_Some. }
    exists b2. cbn [fmap list_fmap for_each].
    rewrite run_bind, Hrun1. cbn [fmap list_fmap] in Hrun2. rewrite Hrun2.
    rewrite list_insert_insert_eq, <- app_assoc in *.
    split; [done|]. split; [done|congruence].
Qed.

Lemma get_last (s : list BBox) (b : BBox) :
  get (length s) (s ++ [b]) = (Return b, s ++ [b]).
Proof. unfold get. by rewrite list_lookup_middle. Qed.

Lemma put_last (s : list BBox) (b b' : BBox) :
  put (length s) b' (s ++ [b]) = (Return tt, s ++ [b']).
Proof.
  unfold put. rewrite insert_app_r_alt by done. by rewrite Nat.sub_diag.
Qed.

(** [BBox(xyarray, transformable)] on finite points: a new box, bound to
    [transformable], that accounts for exactly these points. *)
Lemma init_accumulates (s : list BBox) (pts : list (Q * Q))
    (transformable : option loc) :
  ∃ b, __init__ (Some (finite_point <$> pts)) transformable s
       = (Return (length s), s ++ [b])
       ∧ accumulated pts b
       ∧ _transformable b = transformable.
Proof.
  unfold __init__. rewrite run_bind. unfold new at 1.
  destruct (add_xyarray_accumulates pts
              (s ++ [mkBBox NegInf NegInf PosInf PosInf transformable])
              (length s) (mkBBox NegInf NegInf PosInf PosInf transformable) [])
    as (b & Hrun & Hacc & Ht); [by apply list_lookup_middle|done|].
  exists b. rewrite run_bind, Hrun.
  rewrite insert_app_r_alt by done. rewrite Nat.sub_diag. done.
Qed.

Lemma is_empty_run (s : list BBox) (self : loc) (b : BBox) :
  s !! self = Some b →
  is_empty self s
  = (Return (eqb (max_x b) NegInf || eqb (max_y b) NegInf
             || eqb (min_x b) PosInf || eqb (min_y b) PosInf), s).
Proof. intros Hs. unfold is_empty. rewrite run_bind. unfold get. by rewrite Hs. Qed.

Lemma assert_nonempty_returns (s : list BBox) (self : loc) (text : string) :
  is_empty self s = (Return false, s) →
  assert_nonempty self text s = (Return tt, s).
Proof. intros He. unfold assert_nonempty. by rewrite run_bind, He. Qed.


Lemma accumulated_nonempty (s : list BBox) (self : loc) (b : BBox)
    (p : Q * Q) (pts : list (Q * Q)) :
  s !! self = Some b → accumulated (p :: pts) b →
  is_empty self s = (Return false, s).
Proof.
  intros Hs (Mx & My & mx & my & _ & _ & _ & _ & HMx & HMy & Hmx & Hmy).
  erewrite is_empty_run by done. by rewrite HMx, HMy, Hmx, Hmy.
Qed.







Lemma copy_run (s : list BBox) (self : loc) (b : BBox) :
  s !! self = Some b →
  copy self s
  = (Return (length s),
     s ++ [mkBBox (max_x b) (max_y b) (min_x b) (min_y b) None]).
Proof.
  intros Hs. unfold copy. rewrite run_bind. unfold new at 1.
  rewrite run_bind. unfold get at 1. unfold loc in *.
  rewrite lookup_app_l by (by eapply lookup_lt_Some). rewrite Hs.
  rewrite run_bind, put_last. reflexivity.
Qed.

(** C9 (as the code has it).  On a box that is not empty, [pad] returns a new
    box, bound to nothing, and leaves every box of the store as it was.  The
    new box is the old one grown by [left + x] and [right + x] horizontally
    and by [bottom + v] and [top + v] vertically, where [v] is [y] when [y]
    is given and is not zero, and [x] otherwise: a vertical amount of zero is
    read as no vertical amount. *)
Theorem pad_vertical_amount_is_y_or_x (s : list BBox) (self : loc) (b : BBox)
    (x : num) (y : option num) (left top right bottom : num) :
  s !! self = Some b → is_empty self s = (Return false, s) →
  let v := match y with
           | Some y' => if truthy y' then y' else x
           | None => x
           end in
  pad self x y left top right bottom s
  = (Return (length s),
     s ++ [mkBBox (add (max_x b) (add right x)) (add (max_y b) (add top v))
                  (sub (min_x b) (add left x)) (sub (min_y b) (add bottom v))
                  None]).
Proof.
  intros Hs He v. unfold pad.
  rewrite run_bind, (assert_nonempty_returns _ _ _ He).
  rewrite run_bind, (copy_run _ _ _ Hs).
  rewrite run_bind, get_last, run_bind, put_last.
  rewrite run_bind, get_last, run_bind, put_last.
  rewrite run_bind, get_last, run_bind, put_last.
  rewrite run_bind, get_last, run_bind, put_last.
  reflexivity.
Qed.

End BBoxFacts.

(** *** The theorems at concrete inputs *)

Module Witnesses.

Import Draw Spec Examples.

(** C1: attaching an instance to itself is accepted.  In [world], the call
    [x.add_subcomponent(x)] returns normally, and the attachment list of [x],
    empty before, holds the attachment of [x] to itself after. *)
Lemma self_attachment_is_accepted :
  (∀ e h', add_subcomponent 0 0 ShNone world ≠ (Raise e, h'))
  ∧ (add_subcomponent 0 0 ShNone world).1 = Return tt
  ∧ subcomponents <$> compos world !! 0 = Some []
  ∧ subcomponents <$> compos world_self_attached !! 0
    = Some [mkSubcomponent 0 4].
Proof.
  split; [intros e h'; vm_compute; discriminate|].
  split; [vm_compute; reflexivity|].
  split; vm_compute; reflexivity.
Qed.

(** The cycle that results is only met when flattening, which then never
    returns: whatever the fuel, the recursion runs out of it. *)
Lemma self_attached_flatten_overflows (fuel : nat) (flag : bool) :
  Component_get_subpolygons translate fuel 0 None flag world_self_attached
  = (Raise RecursionError, world_self_attached).
Proof.
  revert flag. induction fuel as [|fuel IH]; intros flag; [done|].
  cbn [Component_get_subpolygons]. rewrite PyFacts.run_bind.
  change (get_component 0 world_self_attached)
    with (Return (mkComponent (Transform := Transform) ∅ ["A"; "B"]%string
                    (10, 0)%Z [mkSubcomponent 0 4]
                    [mkSubpolygon 0 "A"; mkSubpolygon 1 "B"]),
          world_self_attached).
  cbv beta iota.
  rewrite PyFacts.run_bind, PyFacts.run_ret. cbv beta iota.
  rewrite PyFacts.run_bind.
  cbn [subcomponents nested_comprehension]. rewrite PyFacts.run_bind.
  unfold Subcomponent_get_subpolygons at 1. rewrite PyFacts.run_bind.
  cbn [component]. by rewrite IH.
Qed.

Lemma add_subcomponent_has_no_cycle_check_witness :
  ∃ h2 m,
    add_subcomponent 0 0 ShNone world = (Return tt, h2)
    ∧ compos h2 !! 0
      = Some (mkComponent ∅ ["A"; "B"]%string (10, 0)%Z
                          ([] ++ [mkSubcomponent 0 (length (dicts world))])
                          [mkSubpolygon 0 "A"; mkSubpolygon 1 "B"])
    ∧ dicts h2 !! length (dicts world) = Some m
    ∧ ∀ l, m !! l = if decide (l ∈ ["A"; "B"]%string)
                    then Some (Some l) else None.
Proof.
  exact (proj2 (DrawFacts.add_subcomponent_has_no_cycle_check
                  world 0 _ eq_refl)).
Defined.


(** C3 at the scenario of the design: the key [bogus] given to a template
    declaring width and height. *)
Lemma unknown_option_iff_witness :
  ∃ unknown,
    (∀ k, k ∈ unknown
          ↔ k ∈ dom ({["bogus"%string := VInt 1]} : gmap string value)
            ∧ k ∉ dom (Options.declare_mro Rect_mro ∅))
    ∧ Options.__init__ Rect_mro (Some {["bogus"%string := VInt 1]})
      = Raise (UnknownOptionSuppliedError
                 unknown (dom (Options.declare_mro Rect_mro ∅)))
    ∧ UnknownOption (UnknownOptionSuppliedError
                       unknown (dom (Options.declare_mro Rect_mro ∅)))
    ∧ Component_init origin Rect_class (Some {["bogus"%string := VInt 1]}) world
      = (Raise (UnknownOptionSuppliedError
                  unknown (dom (Options.declare_mro Rect_mro ∅))), world).
Proof.
  apply (proj1 (proj2 (DrawFacts.unknown_option_iff
                         origin Rect_class {["bogus"%string := VInt 1]} world))).
  exists "bogus"%string. split; compute_done.
Defined.

Example unknown_option_bogus :
  Options.__init__ Rect_mro (Some {["bogus"%string := VInt 1]})
  = Raise (UnknownOptionSuppliedError
             {["bogus"%string]} {["width"%string; "height"%string]}).
Proof. vm_compute. reflexivity. Qed.

(** C4 on [world]: the instance 3 (layer D) under the instance 2 (layers D
    and E); the instance 3 under [y] (layer C); [x] (layers A and B) under
    [y]. *)
Lemma resolve_absent_layermap_witness :
  (∃ d h' m,
     parse_subcomponent_layermap_shorthand 2 3 ShNone world = (Return d, h')
     ∧ dicts h' !! d = Some m
     ∧ (∀ l, m !! l = if decide (l ∈ list_to_set (C := gset string)
                                      ["D"%string])
                      then Some (Some l) else None)
     ∧ log h' = log world)
  ∧ (∃ cl pl d h',
       list_to_set ["D"%string] =@{gset string} {[cl]}
       ∧ list_to_set ["C"%string] =@{gset string} {[pl]}
       ∧ parse_subcomponent_layermap_shorthand 1 3 ShNone world
         = (Return d, h')
       ∧ dicts h' !! d = Some {[cl := Some pl]}
       ∧ filter is_warning (log h') = filter is_warning (log world))
  ∧ (parse_subcomponent_layermap_shorthand 1 0 ShNone world
     = (Raise (Exception
                 (MustSpecifyLayermap (list_to_set ["A"; "B"]%string) 0
                                      (list_to_set ["C"%string]) 1)), world)
     ∧ AmbiguousLayerMap
         (Exception
            (MustSpecifyLayermap (list_to_set ["A"; "B"]%string) 0
                                 (list_to_set ["C"%string]) 1))).
Proof.
  split; [|split].
  - apply (proj1 (DrawFacts.resolve_absent_layermap world 2 3 _ _
                    eq_refl eq_refl)).
    compute_done.
  - apply (proj1 (proj2 (DrawFacts.resolve_absent_layermap world 1 3 _ _
                           eq_refl eq_refl))); compute_done.
  - apply (proj2 (proj2 (DrawFacts.resolve_absent_layermap world 1 0 _ _
                           eq_refl eq_refl))); compute_done.
Defined.

(** C5 on [world]: [x] under [y] with the dictionary 0 (A to C, nothing for
    B), and with the dictionary 1 (A to C, B to [None]). *)
Lemma resolve_full_mapping_witness :
  (∃ e, parse_subcomponent_layermap_shorthand 1 0 (ShDict 1) world
        = (Raise e, world)
        ∧ InvalidLayerMap e)
  ∧ ∃ h' m',
      parse_subcomponent_layermap_shorthand 1 0 (ShDict 0) world
      = (Return 0, h')
      ∧ dicts h' !! 0 = Some m'
      ∧ m' !! "A"%string = Some (Some "C"%string)
      ∧ m' !! "B"%string = Some None
      ∧ WarningThrowingAway "B" 0 1 ∈ log h'
      ∧ dom m' = list_to_set ["A"; "B"]%string.
Proof.
  split.
  - apply (proj1 (DrawFacts.resolve_full_mapping world 1 0 1 _ _ _
                    eq_refl eq_refl eq_refl)).
    right. exists "B"%string, None. split; [reflexivity|]. by intros l [=].
  - destruct (proj2 (DrawFacts.resolve_full_mapping world 1 0 0 _ _ _
                       eq_refl eq_refl eq_refl))
      as (h' & m' & Hrun & Hd & Hkeep & Hpad & Hdom & _).
    + compute_done.
    + intros k v [<- <-]%lookup_singleton_Some. exists "C"%string.
      split; [done|compute_done].
    + exists h', m'. split; [done|]. split; [done|].
      split; [by apply Hkeep|].
      destruct (Hpad "B"%string) as [HB Hw]; [compute_done|reflexivity|].
      done.
Defined.

(** C10 on [world]: after [y.add_subcomponent(x, d)] with [d] the dictionary
    0, the dictionary 0 itself holds [None] under B. *)
Lemma dict_shorthand_is_padded_in_place_witness :
  dicts world !! 0 = Some {["A"%string := Some "C"%string]}
  ∧ ∃ h1 h2 m',
      parse_subcomponent_layermap_shorthand 1 0 (ShDict 0) world
      = (Return 0, h1)
      ∧ add_subcomponent 1 0 (ShDict 0) world = (Return tt, h2)
      ∧ (∃ p', compos h2 !! 1 = Some p'
               ∧ subcomponents p' = [] ++ [mkSubcomponent 0 0])
      ∧ length (dicts h2) = length (dicts world)
      ∧ dicts h2 !! 0 = Some m'
      ∧ (∀ l, m' !! l
              = match ({["A"%string := Some "C"%string]}
                         : gmap string (option string)) !! l with
                | Some v => Some v
                | None => if decide (l ∈ ["A"; "B"]%string)
                          then Some None else None
                end)
      ∧ ((∃ l, l ∈ ["A"; "B"]%string
               ∧ ({["A"%string := Some "C"%string]}
                    : gmap string (option string)) !! l = None) →
         m' ≠ {["A"%string := Some "C"%string]}).
Proof.
  split; [reflexivity|].
  apply (DrawFacts.dict_shorthand_is_padded_in_place world 1 0 0 _ _ _
           eq_refl eq_refl eq_refl).
  - compute_done.
  - intros k v [<- <-]%lookup_singleton_Some. exists "C"%string.
    split; [done|compute_done].
Defined.

(** C6 on [world_attached]: flattening [y] returns the triangle of [x],
    moved by (10, 0), on layer C. *)
Lemma flatten_discards_unmapped_layer_witness :
  ∃ p h',
    Component_get_subpolygons translate 2 1 None false world_attached
    = (Return [mkSubpolygon p "C"], h')
    ∧ polys h' !! p = Some (id (translate (10, 0)%Z triangle))
    ∧ length (polys world_attached) ≤ p
    ∧ extends world_attached h'
    ∧ (false = false →
       _get_subpolygons translate 2 1 world_attached
       = (Return [mkSubpolygon p "C"], h')).
Proof.
  apply (FlattenFacts.flatten_discards_unmapped_layer translate
           world_attached 0 1 0 1 0 triangle square (10, 0)%Z (0, 5)%Z ∅ ∅
           "A" "B" "C"
           {["A"%string := Some "C"%string; "B"%string := None]} 2 false);
    first [reflexivity | lia].
Defined.

(** C7 on [world_attached]. *)
Lemma flatten_twice_same_output_witness :
  ∃ out1 h1 out2 h2,
    Component_get_subpolygons translate 2 1 None true world_attached
    = (Return out1, h1)
    ∧ Component_get_subpolygons translate 5 1 None true h1 = (Return out2, h2)
    ∧ compos h1 = compos world_attached ∧ dicts h1 = dicts world_attached
    ∧ Forall2 (λ sp1 sp2,
                 layer sp1 = layer sp2
                 ∧ ∃ v, polys h1 !! polygon sp1 = Some v
                        ∧ polys h2 !! polygon sp2 = Some v)
              out1 out2
    ∧ Forall2 (has_value h1) out1 (contents translate 2 world_attached 1 true)
    ∧ Forall2 (has_value h2) out2 (contents translate 2 world_attached 1 true).
Proof.
  apply (FlattenFacts.flatten_twice_same_output translate
           world_attached 1 2 2 5 true); [|lia..].
  apply (FlattenFacts.two_level_tree_wf world_attached 0 1 0 1 0
           triangle square (10, 0)%Z (0, 5)%Z ∅ ∅ "A" "B" "C"
           {["A"%string := Some "C"%string; "B"%string := None]});
    reflexivity.
Defined.

Example flatten_twice_values :
  contents translate 2 world_attached 1 true
  = [([(10, 5); (14, 5); (10, 8)]%Z, "C"%string)].
Proof. vm_compute. reflexivity. Qed.


Example box_of_corners :
  BBox.width 0 boxes = (Return (BBox.Fin 4), boxes)
  ∧ BBox.height 0 boxes = (Return (BBox.Fin 3), boxes)
  ∧ BBox.mid 0 boxes
    = (Return (BBox.Point (BBox.Fin (4 # 2)) (BBox.Fin (3 # 2))), boxes)
  ∧ BBox.top_left 0 boxes
    = (Return (BBox.Point (BBox.Fin 0) (BBox.Fin 3)), boxes).
Proof. repeat split; vm_compute; reflexivity. Qed.

(** C9 at its failing input: [bbox.pad(5, 0)] on the box of the corners pads
    5 units vertically as well. *)
Lemma pad_vertical_amount_is_y_or_x_witness :
  BBox.pad 0 (BBox.Fin 5) (Some (BBox.Fin 0)) (BBox.Fin 0) (BBox.Fin 0)
           (BBox.Fin 0) (BBox.Fin 0) boxes
  = (Return 1,
     boxes ++ [BBox.mkBBox (BBox.Fin 9) (BBox.Fin 8)
                           (BBox.Fin (-5)) (BBox.Fin (-5)) None]).
Proof.
  rewrite (BBoxFacts.pad_vertical_amount_is_y_or_x boxes 0
             (BBox.mkBBox (BBox.Fin 4) (BBox.Fin 3) (BBox.Fin 0) (BBox.Fin 0)
                          None))
    by reflexivity.
  reflexivity.
Defined.

End Witnesses.

(** *** More on the resolver and on attachment *)

Module AttachFacts.

Import Draw Spec StoreSpec PyFacts.

Section Attach.

Context {Polygon Transform : Type}.

Abbreviation Heap := (Draw.Heap Polygon Transform).
Abbreviation Component := (Draw.Component Transform).

Lemma parse_name_not_single (h : Heap) (parent child : loc) (p c : Component)
    (s : string) :
  compos h !! parent = Some p → compos h !! child = Some c →
  size (list_to_set (layers c) : gset string) ≠ 1 →
  parse_subcomponent_layermap_shorthand parent child (ShStr s) h
  = (Raise (Exception StrShorthandChildNotSingle), h).
Proof.
  intros Hp Hc Hsize. unfold parse_subcomponent_layermap_shorthand.
  rewrite run_bind. unfold get_component at 1. rewrite Hp.
  rewrite run_bind. unfold get_component at 1. rewrite Hc.
  rewrite run_bind. by rewrite decide_True.
Qed.

Lemma parse_name_unknown (h : Heap) (parent child : loc) (p c : Component)
    (s : string) :
  compos h !! parent = Some p → compos h !! child = Some c →
  size (list_to_set (layers c) : gset string) = 1 → s ∉ layers p →
  parse_subcomponent_layermap_shorthand parent child (ShStr s) h
  = (Raise (Exception StrShorthandNotInParent), h).
Proof.
  intros Hp Hc Hsize Hs. unfold parse_subcomponent_layermap_shorthand.
  rewrite run_bind. unfold get_component at 1. rewrite Hp.
  rewrite run_bind. unfold get_component at 1. rewrite Hc.
  rewrite run_bind. rewrite decide_False by (by intros Hn; apply Hn).
  by rewrite decide_True by (by rewrite elem_of_list_to_set).
Qed.

Lemma parse_name_valid (h : Heap) (parent child : loc) (p c : Component)
    (s cl : string) :
  compos h !! parent = Some p → compos h !! child = Some c →
  list_to_set (layers c) =@{gset string} {[cl]} → s ∈ layers p →
  parse_subcomponent_layermap_shorthand parent child (ShStr s) h
  = (Return (length (dicts h)),
     mkHeap (compos h) (dicts h ++ [{[cl := Some s]}]) (polys h) (log h)).
Proof.
  intros Hp Hc Hcl Hs. unfold parse_subcomponent_layermap_shorthand.
  rewrite run_bind. unfold get_component at 1. rewrite Hp.
  rewrite run_bind. unfold get_component at 1. rewrite Hc.
  rewrite run_bind, Hcl.
  rewrite decide_False by (rewrite size_singleton; by intros Hn; apply Hn).
  rewrite decide_False
    by (rewrite elem_of_list_to_set; by intros Hn; apply Hn).
  rewrite elements_singleton. unfold new_dict at 1.
  rewrite run_bind. unfold get_dict at 1. cbn [dicts].
  rewrite list_lookup_middle by done.
  rewrite dom_singleton_L, difference_diag_L, elements_empty. reflexivity.
Qed.

(** A dictionary shorthand with a key that is no layer of the child, or a
    value that is no layer of the parent, is refused and nothing changes. *)
Lemma parse_dict_rejects (h : Heap) (parent child d : loc) (p c : Component)
    (m : gmap string (option string)) :
  compos h !! parent = Some p → compos h !! child = Some c →
  dicts h !! d = Some m →
  (dom m ⊈ list_to_set (layers c)
   ∨ ∃ k v, m !! k = Some v ∧ ∀ l, v = Some l → l ∉ layers p) →
  ∃ e, parse_subcomponent_layermap_shorthand parent child (ShDict d) h
       = (Raise e, h)
       ∧ InvalidLayerMap e.
Proof.
  intros Hp Hc Hd Hbad. unfold parse_subcomponent_layermap_shorthand.
  rewrite run_bind. unfold get_component at 1. rewrite Hp.
  rewrite run_bind. unfold get_component at 1. rewrite Hc.
  rewrite run_bind. rewrite run_bind. unfold get_dict at 1. rewrite Hd.
  destruct (decide (dom m ⊆ list_to_set (layers c))) as [Hkeys|Hkeys].
  - rewrite decide_False by (by intros Hn; apply Hn).
    destruct Hbad as [?|(k & v & Hkv & Hv)]; [done|].
    destruct (forallb (value_in_layers (list_to_set (layers p)))
                      (map_to_list m).*2) eqn:Hall.
    + pose proof (proj1 (DrawFacts.values_in_layers_spec _ _) Hall) as Hall'.
      destruct (Hall' _ _ Hkv) as (l & -> & Hl).
      rewrite elem_of_list_to_set in Hl. by destruct (Hv l).
    + eexists. split; [reflexivity|]. right. by left.
  - rewrite decide_True by done.
    eexists. split; [reflexivity|]. by left.
Qed.

(** However the resolver is called, it either raises and leaves the store as
    it was, or returns a dictionary that is defined on every layer of the
    child and sends each to a layer of the parent or to [None]; that
    dictionary is a new one, or the caller's own, padded. *)
Lemma resolver_cases (h : Heap) (parent child : loc) (sh : shorthand) :
  (∃ e, parse_subcomponent_layermap_shorthand parent child sh h = (Raise e, h))
  ∨ ∃ p c d m lg,
      compos h !! parent = Some p ∧ compos h !! child = Some c
      ∧ (∀ l, l ∈ layers c → is_Some (m !! l))
      ∧ (∀ l l', l ∈ layers c → m !! l = Some (Some l') → l' ∈ layers p)
      ∧ ((d = length (dicts h)
          ∧ parse_subcomponent_layermap_shorthand parent child sh h
            = (Return d,
               mkHeap (compos h) (dicts h ++ [m]) (polys h) (log h ++ lg)))
         ∨ (∃ m0,
              sh = ShDict d ∧ dicts h !! d = Some m0
              ∧ (∀ l, m !! l = match m0 !! l with
                               | Some v => Some v
                               | None => if decide (l ∈ layers c)
                                         then Some None else None
                               end)
              ∧ parse_subcomponent_layermap_shorthand parent child sh h
                = (Return d,
                   mkHeap (compos h) (<[d := m]> (dicts h)) (polys h)
                          (log h ++ lg)))).
Proof.
  destruct (compos h !! parent) as [p|] eqn:Hp.
  2: { left. eexists. unfold parse_subcomponent_layermap_shorthand.
       rewrite run_bind. unfold get_component at 1. by rewrite Hp. }
  destruct (compos h !! child) as [c|] eqn:Hc.
  2: { left. eexists. unfold parse_subcomponent_layermap_shorthand.
       rewrite run_bind. unfold get_component at 1. rewrite Hp.
       rewrite run_bind. unfold get_component at 1. by rewrite Hc. }
  destruct sh as [|s|d|].
  - destruct (decide (list_to_set (layers c)
                      ⊆@{gset string} list_to_set (layers p))) as [Hsub|Hsub].
    + right. eexists p, c, _, _, []. do 2 (split; [done|]).
      split; [|split]; [| |left; split; [done|]].
      3: { rewrite app_nil_r. by eapply DrawFacts.parse_absent_subset. }
      * intros l Hl. rewrite DrawFacts.dict_zip_diag_lookup.
        rewrite decide_True; [by eexists|].
        by rewrite elem_of_elements, elem_of_list_to_set.
      * intros l l' Hl. rewrite DrawFacts.dict_zip_diag_lookup.
        case_decide; [|done]. intros [= <-].
        specialize (Hsub l). rewrite !elem_of_list_to_set in Hsub. auto.
    + destruct (decide (size (list_to_set (layers p) : gset string)
                        = size (list_to_set (layers c) : gset string)
                        ∧ size (list_to_set (layers c) : gset string) = 1))
        as [[Hsp Hsc]|Hsize].
      * rewrite Hsc in Hsp.
        apply size_1_elem_of in Hsp as [pl Hpl], Hsc as [cl Hcl].
        apply leibniz_equiv in Hpl, Hcl.
        assert (cl ≠ pl) as Hne.
        { intros ->. apply Hsub. by rewrite Hpl, Hcl. }
        right. eexists p, c, _, _, _. do 2 (split; [done|]).
        split; [|split]; [| |left; split; [done|]].
        3: { by eapply DrawFacts.parse_absent_singletons. }
        -- intros l Hl.
           assert (l ∈ ({[cl]} : gset string)) as ->%elem_of_singleton
             by (by rewrite <- Hcl, elem_of_list_to_set).
           rewrite lookup_singleton_eq. by eexists.
        -- intros l l' Hl [<- [= <-]]%lookup_singleton_Some.
           assert (pl ∈ ({[pl]} : gset string)) as Hin
             by (by apply elem_of_singleton).
           by rewrite <- Hpl, elem_of_list_to_set in Hin.
      * left. eexists. unfold parse_subcomponent_layermap_shorthand.
        rewrite run_bind. unfold get_component at 1. rewrite Hp.
        rewrite run_bind. unfold get_component at 1. rewrite Hc.
        rewrite run_bind. rewrite decide_False by done.
        by rewrite decide_False by done.
  - destruct (decide (size (list_to_set (layers c) : gset string) = 1))
      as [Hsize|Hsize].
    2: { left. eexists. by eapply parse_name_not_single. }
    destruct (decide (s ∈ layers p)) as [Hs|Hs].
    2: { left. eexists. by eapply parse_name_unknown. }
    pose proof Hsize as [cl Hcl]%size_1_elem_of. apply leibniz_equiv in Hcl.
    right. eexists p, c, _, _, []. do 2 (split; [done|]).
    split; [|split]; [| |left; split; [done|]].
    3: { rewrite app_nil_r. by eapply parse_name_valid. }
    + intros l Hl.
      assert (l ∈ ({[cl]} : gset string)) as ->%elem_of_singleton
        by (by rewrite <- Hcl, elem_of_list_to_set).
      rewrite lookup_singleton_eq. by eexists.
    + by intros l l' Hl [<- [= <-]]%lookup_singleton_Some.
  - destruct (dicts h !! d) as [m0|] eqn:Hd.
    2: { left. eexists. unfold parse_subcomponent_layermap_shorthand.
         rewrite run_bind. unfold get_component at 1. rewrite Hp.
         rewrite run_bind. unfold get_component at 1. rewrite Hc.
         rewrite run_bind. rewrite run_bind. unfold get_dict at 1.
         by rewrite Hd. }
    destruct (decide (dom m0 ⊆ list_to_set (layers c))) as [Hkeys|Hkeys].
    2: { left. destruct (parse_dict_rejects h parent child d p c m0)
           as (e & He & _); [done..|by left|by eexists]. }
    destruct (forallb (value_in_layers (list_to_set (layers p)))
                      (map_to_list m0).*2) eqn:Hall.
    2: { left. eexists. unfold parse_subcomponent_layermap_shorthand.
         rewrite run_bind. unfold get_component at 1. rewrite Hp.
         rewrite run_bind. unfold get_component at 1. rewrite Hc.
         rewrite run_bind. rewrite run_bind. unfold get_dict at 1.
         rewrite Hd. rewrite decide_False by (by intros Hn; apply Hn).
         by rewrite Hall. }
    assert (∀ k v, m0 !! k = Some v → ∃ l, v = Some l ∧ l ∈ layers p)
      as Hvals.
    { intros k v Hkv.
      destruct (proj1 (DrawFacts.values_in_layers_spec _ _) Hall _ _ Hkv)
        as (l & -> & Hl).
      exists l. by rewrite elem_of_list_to_set in Hl. }
    right. eexists p, c, d, _, _. do 2 (split; [done|]).
    split; [|split]; [| |right; exists m0; split; [done|]; split; [done|]; split].
    4: { by eapply DrawFacts.parse_dict_valid. }
    + intros l Hl. rewrite DrawFacts.padded_lookup.
      destruct (m0 !! l); [by eexists|].
      rewrite decide_True by (by rewrite elem_of_list_to_set). by eexists.
    + intros l l' Hl. rewrite DrawFacts.padded_lookup.
      destruct (m0 !! l) as [v|] eqn:Hl0.
      * intros [= ->]. destruct (Hvals _ _ Hl0) as (l0 & [= <-] & Hin). done.
      * by case_decide.
    + intros l. rewrite DrawFacts.padded_lookup.
      destruct (m0 !! l); [done|].
      destruct (decide (l ∈ layers c)).
      * by rewrite decide_True by (by rewrite elem_of_list_to_set).
      * by rewrite decide_False by (by rewrite elem_of_list_to_set).
  - left. eexists. unfold parse_subcomponent_layermap_shorthand.
    rewrite run_bind. unfold get_component at 1. rewrite Hp.
    rewrite run_bind. unfold get_component at 1. by rewrite Hc.
Qed.

(** X1.  A name as layer-map shorthand.  The child must have exactly one
    layer, and this is checked first; then the name must be a layer of the
    parent; then the result is a new dictionary sending the one layer of the
    child to the name.  Both failures leave the store as it was, and nothing is
    logged in any case. *)
Theorem resolve_name_shorthand (h : Heap) (parent child : loc)
    (p c : Component) (s : string) :
  compos h !! parent = Some p → compos h !! child = Some c →
  (size (list_to_set (layers c) : gset string) ≠ 1 →
   InvalidLayerMap (Exception StrShorthandChildNotSingle)
   ∧ parse_subcomponent_layermap_shorthand parent child (ShStr s) h
     = (Raise (Exception StrShorthandChildNotSingle), h))
  ∧ (size (list_to_set (layers c) : gset string) = 1 → s ∉ layers p →
     InvalidLayerMap (Exception StrShorthandNotInParent)
     ∧ parse_subcomponent_layermap_shorthand parent child (ShStr s) h
       = (Raise (Exception StrShorthandNotInParent), h))
  ∧ (∀ cl, list_to_set (layers c) =@{gset string} {[cl]} → s ∈ layers p →
     parse_subcomponent_layermap_shorthand parent child (ShStr s) h
     = (Return (length (dicts h)),
        mkHeap (compos h) (dicts h ++ [{[cl := Some s]}]) (polys h) (log h))).
Proof.
  intros Hp Hc. split; [|split].
  - intros Hsize. split; [right; right; by left|].
    by eapply parse_name_not_single.
  - intros Hsize Hs. split; [by do 3 right|].
    by eapply parse_name_unknown.
  - intros cl Hcl Hs. by eapply parse_name_valid.
Qed.

(** X2.  What the resolver returns, whatever the shorthand: a dictionary of
    the store that is defined on every layer of the child and sends each to a
    layer of the parent or to [None].  No component, no polygon and no other
    dictionary of the store has changed, no dictionary has gone, and the log
    has only grown. *)
Theorem resolved_layermap_is_total (h h1 : Heap) (parent child d : loc)
    (sh : shorthand) :
  parse_subcomponent_layermap_shorthand parent child sh h = (Return d, h1) →
  compos h1 = compos h ∧ polys h1 = polys h ∧ log h `prefix_of` log h1
  ∧ (∀ d', d' ≠ d → d' < length (dicts h) → dicts h1 !! d' = dicts h !! d')
  ∧ ∃ p c m,
      compos h !! parent = Some p ∧ compos h !! child = Some c
      ∧ dicts h1 !! d = Some m
      ∧ (∀ l, l ∈ layers c → is_Some (m !! l))
      ∧ (∀ l l', l ∈ layers c → m !! l = Some (Some l') → l' ∈ layers p).
Proof.
  intros Hrun.
  destruct (resolver_cases h parent child sh)
    as [[e He]|(p & c & d0 & m & lg & Hp & Hc & Htot & Hinto
                & [[-> Hr]|(m0 & -> & Hd & Hm & Hr)])];
    [congruence| |]; rewrite Hrun in Hr; injection Hr as -> ->; cbn.
  - do 2 (split; [done|]). split; [by apply prefix_app_r|].
    split.
    + intros d' _ Hd'. by rewrite lookup_app_l.
    + exists p, c, m. do 2 (split; [done|]).
      split; [by rewrite list_lookup_middle|done].
  - do 2 (split; [done|]). split; [by apply prefix_app_r|].
    split.
    + intros d' Hd' _. by rewrite list_lookup_insert_ne.
    + exists p, c, m. do 2 (split; [done|]).
      split; [|done]. apply list_lookup_insert_eq.
      by eapply lookup_lt_Some.
Qed.

(** X3.  An attachment that fails changes nothing.  When [add_subcomponent]
    raises, the exception is the resolver's, and the whole store is as before
    the call: no component, dictionary or polygon has changed and nothing was
    logged.  In particular a dictionary shorthand is checked in full before it
    is padded. *)
Theorem failed_attachment_changes_nothing (h h1 : Heap) (self child : loc)
    (sh : shorthand) (e : exn) :
  add_subcomponent self child sh h = (Raise e, h1) →
  h1 = h
  ∧ parse_subcomponent_layermap_shorthand self child sh h = (Raise e, h).
Proof.
  intros Hrun.
  destruct (resolver_cases h self child sh)
    as [[e' He]|(p & c & d0 & m & lg & Hp & Hc & _ & _
                 & [[_ Hr]|(m0 & _ & _ & _ & Hr)])].
  - destruct (DrawFacts.add_subcomponent_raises _ _ _ _ _ _ He) as [Ha _].
    rewrite Ha in Hrun. by injection Hrun as -> ->.
  - rewrite (DrawFacts.add_subcomponent_returns _ _ _ _ _ _ _ Hp Hr) in Hrun.
    done.
  - rewrite (DrawFacts.add_subcomponent_returns _ _ _ _ _ _ _ Hp Hr) in Hrun.
    done.
Qed.

(** X4.  A dictionary that was padded cannot be passed again.  Once an
    attachment under a dictionary shorthand has succeeded and the dictionary
    lacked a layer of the child, the dictionary holds [None] under that layer;
    [None] is no layer of any parent, so every later attachment under the same
    dictionary, of any instance to any parent, is refused, and changes
    nothing. *)
Theorem padded_dictionary_is_rejected_on_reuse (h h1 : Heap)
    (self child d : loc) (c : Component) (m0 : gmap string (option string))
    (missing : string) (self2 child2 : loc) (p2 c2 : Component) :
  compos h !! child = Some c → dicts h !! d = Some m0 →
  missing ∈ layers c → m0 !! missing = None →
  add_subcomponent self child (ShDict d) h = (Return tt, h1) →
  compos h1 !! self2 = Some p2 → compos h1 !! child2 = Some c2 →
  ∃ e, InvalidLayerMap e
       ∧ add_subcomponent self2 child2 (ShDict d) h1 = (Raise e, h1).
Proof.
  intros Hc Hd Hmiss Hnone Hrun Hp2 Hc2.
  destruct (resolver_cases h self child (ShDict d))
    as [[e' He]|(p & c' & d0 & m & lg & Hp & Hc' & _ & _ & Hcase)].
  { destruct (DrawFacts.add_subcomponent_raises _ _ _ _ _ _ He) as [Ha _].
    by rewrite Ha in Hrun. }
  assert (c' = c) as -> by congruence.
  assert (∃ m', dicts h1 !! d = Some m' ∧ m' !! missing = Some None)
    as (m' & Hd1 & Hm').
  { destruct Hcase as [[-> Hr]|(m1 & [= <-] & Hd' & Hm & Hr)].
    - exfalso.
      destruct (decide (dom m0 ⊆ list_to_set (layers c))) as [Hk|Hk].
      2: { destruct (parse_dict_rejects h self child d p c m0)
             as (e & He & _); [done..|by left|by rewrite He in Hr]. }
      destruct (forallb (value_in_layers (list_to_set (layers p)))
                        (map_to_list m0).*2) eqn:Hall.
      + pose proof (proj1 (DrawFacts.values_in_layers_spec _ _) Hall) as Hv.
        rewrite (DrawFacts.parse_dict_valid h self child d p c m0) in Hr;
          [|done..|].
        * injection Hr as Hr _. apply lookup_lt_Some in Hd. lia.
        * intros k v Hkv. destruct (Hv _ _ Hkv) as (l & -> & Hl).
          exists l. by rewrite elem_of_list_to_set in Hl.
      + unfold parse_subcomponent_layermap_shorthand in Hr.
        rewrite run_bind in Hr. unfold get_component at 1 in Hr.
        rewrite Hp in Hr.
        rewrite run_bind in Hr. unfold get_component at 1 in Hr.
        rewrite Hc in Hr.
        rewrite run_bind in Hr. rewrite run_bind in Hr.
        unfold get_dict at 1 in Hr. rewrite Hd in Hr.
        rewrite decide_False in Hr by (by intros Hn; apply Hn).
        by rewrite Hall in Hr.
    - rewrite (DrawFacts.add_subcomponent_returns _ _ _ _ _ _ _ Hp Hr) in Hrun.
      injection Hrun as <-. cbn. exists m. split.
      + apply list_lookup_insert_eq. by eapply lookup_lt_Some.
      + rewrite Hm. assert (m1 = m0) as -> by (unfold loc in *; congruence).
        rewrite Hnone. by rewrite decide_True. }
  destruct (parse_dict_rejects h1 self2 child2 d p2 c2 m')
    as (e & He & Hinv); [done..| |].
  { right. by exists missing, None. }
  exists e. split; [done|].
  by destruct (DrawFacts.add_subcomponent_raises _ _ _ _ _ _ He).
Qed.

End Attach.

End AttachFacts.

(** *** Whole stores: what flattening touches, and when it returns *)

Module StoreFacts.

Import Draw Spec StoreSpec PyFacts.

Section Store.

Context {Polygon Transform : Type}.
Context (apply_transform : Transform → Polygon → Polygon).

Abbreviation Heap := (Draw.Heap Polygon Transform).
Abbreviation Component := (Draw.Component Transform).
Abbreviation M := (ST Heap).

Lemma only_allocates_ret {A} (a : A) : only_allocates (mret a : M A).
Proof. intros h. apply FlattenFacts.extends_refl. Qed.

Lemma only_allocates_raise {A} (e : exn) : only_allocates (raise e : M A).
Proof. intros h. apply FlattenFacts.extends_refl. Qed.

Lemma only_allocates_bind {A B} (m : M A) (k : A → M B) :
  only_allocates m → (∀ a, only_allocates (k a)) → only_allocates (m ≫= k).
Proof.
  intros Hm Hk h. rewrite run_bind. specialize (Hm h).
  destruct (m h) as [[a|e] h1]; cbn in *; [|done].
  eapply FlattenFacts.extends_trans; [done|apply Hk].
Qed.

Lemma only_allocates_comprehension {A B} (xs : list A)
    (elt : A → M (option B)) :
  (∀ x, only_allocates (elt x)) → only_allocates (comprehension xs elt).
Proof.
  intros Hb. induction xs as [|x xs IH]; [apply only_allocates_ret|].
  cbn [comprehension]. apply only_allocates_bind; [apply Hb|intros y].
  apply only_allocates_bind; [done|intros ys]. apply only_allocates_ret.
Qed.

Lemma only_allocates_nested {A B} (xs : list A) (inner : A → M (list B)) :
  (∀ x, only_allocates (inner x)) →
  only_allocates (nested_comprehension xs inner).
Proof.
  intros Hb. induction xs as [|x xs IH]; [apply only_allocates_ret|].
  cbn [nested_comprehension]. apply only_allocates_bind; [apply Hb|intros y].
  apply only_allocates_bind; [done|intros ys]. apply only_allocates_ret.
Qed.

Lemma only_allocates_get_component (i : loc) :
  only_allocates (get_component (Polygon := Polygon) (Transform := Transform) i).
Proof.
  intros h. unfold get_component.
  destruct (compos h !! i); apply FlattenFacts.extends_refl.
Qed.

Lemma only_allocates_get_dict (d : loc) :
  only_allocates (get_dict (Polygon := Polygon) (Transform := Transform) d).
Proof.
  intros h. unfold get_dict.
  destruct (dicts h !! d); apply FlattenFacts.extends_refl.
Qed.

Lemma only_allocates_copy (p : loc) :
  only_allocates (Polygon_copy (Polygon := Polygon) (Transform := Transform) p).
Proof.
  intros h. unfold Polygon_copy. rewrite run_bind. unfold get_polygon_value.
  destruct (polys h !! p);
    [apply FlattenFacts.extends_alloc|apply FlattenFacts.extends_refl].
Qed.

(** A polygon is transformed only after it was copied: the transform lands
    on the copy. *)
Lemma only_allocates_copy_transform {B} (sp : Subpolygon) (t : Transform)
    (flag : bool) (k : loc → M B) :
  (∀ p, only_allocates (k p)) →
  only_allocates
    (p ← Subpolygon_get_polygon sp;
     p ← (if flag then Polygon_apply_transform apply_transform p t
          else mret p);
     k p).
Proof.
  intros Hk h. rewrite run_bind.
  destruct (polys h !! polygon sp) as [v|] eqn:Hv.
  - rewrite (FlattenFacts.get_polygon_run h sp v Hv). rewrite run_bind.
    destruct flag.
    + rewrite FlattenFacts.transform_copy_run.
      eapply FlattenFacts.extends_trans; [|apply Hk].
      apply (FlattenFacts.extends_alloc h (apply_transform t v)).
    + rewrite run_ret.
      eapply FlattenFacts.extends_trans; [|apply Hk].
      apply FlattenFacts.extends_alloc.
  - unfold Subpolygon_get_polygon, Polygon_copy. rewrite run_bind.
    unfold get_polygon_value. rewrite Hv. apply FlattenFacts.extends_refl.
Qed.

Lemma subcomponent_only_allocates (rec : loc → M (list Subpolygon))
    (sc : Subcomponent) :
  (∀ child, only_allocates (rec child)) →
  only_allocates (Subcomponent_get_subpolygons rec sc).
Proof.
  intros Hrec. unfold Subcomponent_get_subpolygons.
  apply only_allocates_bind; [apply Hrec|intros subpolys].
  apply only_allocates_comprehension. intros sp.
  apply only_allocates_bind; [apply only_allocates_get_dict|intros lm].
  destruct (lm !! layer sp) as [[l|]|];
    [|apply only_allocates_ret|apply only_allocates_raise].
  apply only_allocates_bind; [apply only_allocates_copy|intros p].
  apply only_allocates_ret.
Qed.

Lemma flatten_only_allocates (fuel : nat) :
  ∀ (self : loc) (layermap : option loc) (flag : bool),
    only_allocates
      (Component_get_subpolygons apply_transform fuel self layermap flag).
Proof.
  induction fuel as [|fuel IH]; intros self layermap flag;
    [apply only_allocates_raise|].
  cbn [Component_get_subpolygons].
  apply only_allocates_bind; [apply only_allocates_get_component|intros c].
  apply only_allocates_bind.
  { destruct layermap as [d|]; [|apply only_allocates_ret].
    apply only_allocates_bind; [apply only_allocates_get_dict|intros m].
    case_decide; [apply only_allocates_ret|apply only_allocates_raise]. }
  intros lm. apply only_allocates_bind.
  { apply only_allocates_nested. intros sc.
    apply subcomponent_only_allocates. intros child. apply IH. }
  intros inner. apply only_allocates_bind.
  { apply only_allocates_comprehension. intros sp.
    apply only_allocates_bind; [|intros ?; apply only_allocates_ret].
    unfold Subpolygon_get_subpolygon.
    apply only_allocates_bind; [apply only_allocates_copy|intros p].
    apply only_allocates_ret. }
  intros own. apply only_allocates_comprehension. intros sp.
  destruct (lm !! layer sp) as [[l|]|];
    [|apply only_allocates_ret|apply only_allocates_raise].
  apply only_allocates_copy_transform. intros p. apply only_allocates_ret.
Qed.

(** X6.  Flattening only allocates.  [get_subpolygons], with any layer map
    and either value of [do_apply_transform], [_get_subpolygons], and
    [Subcomponent.get_subpolygons], run in any store and with any outcome
    (a result, a [KeyError], an overflow of the call stack), leave every
    component, every dictionary and every polygon of the store as they were
    and log nothing: the polygons they transform are copies they made. *)
Theorem get_subpolygons_only_allocates (fuel : nat) (self : loc)
    (layermap : option loc) (flag : bool) (sc : Subcomponent) :
  only_allocates
    (Component_get_subpolygons apply_transform fuel self layermap flag)
  ∧ only_allocates (_get_subpolygons apply_transform fuel self)
  ∧ only_allocates
      (Subcomponent_get_subpolygons
         (λ child,
            Component_get_subpolygons apply_transform fuel child None true)
         sc).
Proof.
  split; [apply flatten_only_allocates|].
  split; [apply flatten_only_allocates|].
  apply subcomponent_only_allocates. intros child.
  apply flatten_only_allocates.
Qed.

(** A store without cycles, in which every component is well formed, holds
    a well-formed tree under each of its components. *)
Lemma ranked_tree_wf (h : Heap) (rank : loc → nat) :
  store_wf h → ranked h rank →
  ∀ n i, rank i < n → is_Some (compos h !! i) → tree_wf h n i.
Proof.
  intros Hwf Hrank. induction n as [|n IH]; intros i Hlt [c Hc]; [lia|].
  destruct (Hwf i c Hc) as [Hsp Hsc].
  exists c. split; [done|]. split; [done|].
  intros sc Hin.
  destruct (Hsc sc Hin) as (lm & child & Hlm & Hchild & Htot & Hinto).
  split.
  - apply IH; [|by eexists].
    specialize (Hrank i c sc Hc Hin). lia.
  - by exists lm, child.
Qed.

(** X7.  Flattening a store without cycles returns.  When every component
    of the store is as the attach methods leave it ([store_wf]) and
    attachments decrease some rank, [get_subpolygons] on any component of the
    store, with a call depth above the rank of the component, raises nothing
    (no [KeyError] from a layer map, no overflow): it returns new polygons
    that carry the contents of the component, each on a layer of the
    component. *)
Theorem acyclic_store_flattens (h : Heap) (rank : loc → nat) (self : loc)
    (c : Component) (fuel : nat) (flag : bool) :
  store_wf h → ranked h rank →
  compos h !! self = Some c → rank self < fuel →
  ∃ out h',
    Component_get_subpolygons apply_transform fuel self None flag h
    = (Return out, h')
    ∧ extends h h'
    ∧ Forall2 (has_value h') out (contents apply_transform fuel h self flag)
    ∧ Forall (fresh_in h) out
    ∧ Forall (λ sp, layer sp ∈ layers c) out.
Proof.
  intros Hwf Hrank Hc Hfuel.
  assert (tree_wf h fuel self) as Htree
    by (eapply ranked_tree_wf; [done..|by eexists]).
  destruct (FlattenFacts.flatten_refines apply_transform fuel h self flag Htree)
    as [(c' & Hc' & Hlayers) Hrun].
  assert (c' = c) as -> by congruence.
  destruct (Hrun fuel h (le_n _) (FlattenFacts.extends_refl h))
    as (out & h' & Hout & Hext & Hvals & Hfresh).
  exists out, h'. do 4 (split; [done|]).
  clear Hout Hfresh Hrun. revert Hvals Hlayers.
  generalize (contents apply_transform fuel h self flag).
  intros vals Hvals. induction Hvals as [|sp v out vals [Hl _] _ IH];
    intros Hlayers; [done|].
  apply Forall_cons in Hlayers as [Hv Hlayers].
  constructor; [by rewrite Hl|by apply IH].
Qed.

(** In a list comprehension over attachments, an attachment whose flattening
    raises in every later store makes the comprehension raise. *)
Lemma nested_raises {B} (h0 : Heap) (xs : list Subcomponent)
    (inner : Subcomponent → M (list B)) (sc : Subcomponent) :
  (∀ x, only_allocates (inner x)) →
  sc ∈ xs →
  (∀ h, extends h0 h → ∃ e h', inner sc h = (Raise e, h')) →
  ∀ h, extends h0 h →
    ∃ e h', nested_comprehension xs inner h = (Raise e, h').
Proof.
  intros Hall Hin Hsc. induction xs as [|x xs IH]; intros h Hext.
  - by apply elem_of_nil in Hin.
  - cbn [nested_comprehension]. rewrite run_bind.
    pose proof (Hall x h) as Hx.
    destruct (inner x h) as [[ys|e] h1] eqn:Hrun; [|by eexists _, _].
    cbn in Hx.
    apply elem_of_cons in Hin as [->|Hin].
    { destruct (Hsc h Hext) as (e & h' & He). congruence. }
    destruct (IH Hin h1) as (e & h' & He).
    { by eapply FlattenFacts.extends_trans. }
    rewrite run_bind, He. by eexists _, _.
Qed.

(** X8.  Flattening a cycle never returns.  When from every instance of [P]
    an attachment leads to an instance of [P] again (an instance attached to
    itself, two instances attached to each other, ...), [get_subpolygons] on
    an instance of [P] raises, however deep the call stack may grow, with any
    layer map and in every store the original one has grown into. *)
Theorem cyclic_store_never_flattens (h : Heap) (P : loc → Prop) (fuel : nat)
    (self : loc) (layermap : option loc) (flag : bool) (h1 : Heap) :
  endless h P → P self → extends h h1 →
  ∃ e h',
    Component_get_subpolygons apply_transform fuel self layermap flag h1
    = (Raise e, h').
Proof.
  intros Hend. revert self layermap flag h1.
  induction fuel as [|fuel IH]; intros self layermap flag h1 HP Hext;
    [by eexists _, _|].
  destruct (Hend self HP) as (c & sc & Hc & Hin & HPsc).
  cbn [Component_get_subpolygons]. rewrite run_bind.
  unfold get_component at 1.
  assert (compos h1 !! self = Some c) as ->
    by (by destruct Hext as (-> & _)).
  rewrite run_bind.
  set (lm_step := match layermap with
                  | Some d => _
                  | None => _
                  end).
  pose proof (λ H, only_allocates_bind (A := gmap string (option string))
                     (B := unit) lm_step (λ _, mret tt) H
                     (λ _, only_allocates_ret tt) h1) as Hlm.
  rewrite run_bind in Hlm.
  destruct (lm_step h1) as [[lm|e] h2] eqn:Hrun; [|by eexists _, _].
  assert (extends h h2) as Hext2.
  { eapply FlattenFacts.extends_trans; [done|]. apply Hlm.
    subst lm_step. destruct layermap as [d|]; [|apply only_allocates_ret].
    apply only_allocates_bind; [apply only_allocates_get_dict|intros m].
    case_decide; [apply only_allocates_ret|apply only_allocates_raise]. }
  rewrite run_bind.
  edestruct (nested_raises h (subcomponents c)
               (Subcomponent_get_subpolygons
                  (λ child, Component_get_subpolygons apply_transform fuel
                                                      child None true))
               sc) as (e & h' & He);
    [| exact Hin | | exact Hext2 |].
  - intros x. apply subcomponent_only_allocates. intros child.
    apply flatten_only_allocates.
  - intros h3 Hext3. unfold Subcomponent_get_subpolygons. rewrite run_bind.
    destruct (IH (component sc) None true h3 HPsc Hext3) as (e & h' & ->).
    by eexists _, _.
  - rewrite He. by eexists _, _.
Qed.

(** A component that is well formed stays so when polygons are added, when
    dictionaries gain entries mapping to [None], and when components change
    but keep their layers. *)
Lemma component_wf_grows (h h' : Heap) (c : Component) :
  (∀ q, is_Some (polys h !! q) → is_Some (polys h' !! q)) →
  (∀ d m, dicts h !! d = Some m →
     ∃ m', dicts h' !! d = Some m'
           ∧ (∀ l v, m !! l = Some v → m' !! l = Some v)
           ∧ (∀ l l', m' !! l = Some (Some l') → m !! l = Some (Some l'))) →
  (∀ i x, compos h !! i = Some x →
     ∃ x', compos h' !! i = Some x' ∧ layers x' = layers x) →
  component_wf h c → component_wf h' c.
Proof.
  intros Hpolys Hdicts Hcompos [Hsp Hsc]. split.
  - intros sp Hin. destruct (Hsp sp Hin). split; [done|]. by apply Hpolys.
  - intros sc Hin.
    destruct (Hsc sc Hin) as (lm & child & Hlm & Hchild & Htot & Hinto).
    destruct (Hdicts _ _ Hlm) as (lm' & Hlm' & Hkeep & Hback).
    destruct (Hcompos _ _ Hchild) as (child' & Hchild' & Hlayers).
    exists lm', child'. do 2 (split; [done|]). rewrite Hlayers. split.
    + intros l Hl. destruct (Htot l Hl) as [v Hv]. exists v. by apply Hkeep.
    + intros l l' Hl Hl'. eapply Hinto; [done|]. by apply Hback.
Qed.

Lemma compos_insert_layers (h : Heap) (self : loc) (p p' : Component) :
  compos h !! self = Some p → layers p' = layers p →
  ∀ i x, compos h !! i = Some x →
    ∃ x', <[self := p']> (compos h) !! i = Some x' ∧ layers x' = layers x.
Proof.
  intros Hp Hl i x Hi. destruct (decide (i = self)) as [->|Hne].
  - exists p'. split.
    + apply list_lookup_insert_eq. by eapply lookup_lt_Some.
    + assert (x = p) as -> by (unfold loc in *; congruence). done.
  - exists x. by rewrite list_lookup_insert_ne.
Qed.

(** What a call of [add_subcomponent] that returns has done: the resolved
    dictionary [m], at [d], is defined on the layers of the child and maps
    into the layers of [self]; the dictionaries of the store have at most
    gained entries that map to [None]; [self] has one attachment more. *)
Lemma add_subcomponent_outcome (h h1 : Heap) (self child : loc)
    (sh : shorthand) :
  add_subcomponent self child sh h = (Return tt, h1) →
  ∃ p c d m ds lg,
    compos h !! self = Some p ∧ compos h !! child = Some c
    ∧ (∀ l, l ∈ layers c → is_Some (m !! l))
    ∧ (∀ l l', l ∈ layers c → m !! l = Some (Some l') → l' ∈ layers p)
    ∧ ds !! d = Some m
    ∧ (∀ d' m', dicts h !! d' = Some m' →
         ∃ m'', ds !! d' = Some m''
                ∧ (∀ l v, m' !! l = Some v → m'' !! l = Some v)
                ∧ (∀ l l', m'' !! l = Some (Some l') →
                           m' !! l = Some (Some l')))
    ∧ h1 = mkHeap (<[self := mkComponent (options p) (layers p) (transform p)
                               (subcomponents p ++ [mkSubcomponent child d])
                               (subpolygons p)]> (compos h))
                  ds (polys h) (log h ++ lg).
Proof.
  intros Hrun.
  destruct (AttachFacts.resolver_cases h self child sh)
    as [[e He]|(p & c & d & m & lg & Hp & Hc & Htot & Hinto & Hcase)].
  { destruct (DrawFacts.add_subcomponent_raises _ _ _ _ _ _ He) as [Ha _].
    by rewrite Ha in Hrun. }
  assert (∃ ds,
    parse_subcomponent_layermap_shorthand self child sh h
    = (Return d, mkHeap (compos h) ds (polys h) (log h ++ lg))
    ∧ ds !! d = Some m
    ∧ ∀ d' m', dicts h !! d' = Some m' →
        ∃ m'', ds !! d' = Some m''
               ∧ (∀ l v, m' !! l = Some v → m'' !! l = Some v)
               ∧ (∀ l l', m'' !! l = Some (Some l') →
                          m' !! l = Some (Some l')))
    as (ds & Hr & Hd & Hgrow).
  { destruct Hcase as [[-> Hr]|(m0 & -> & Hd & Hm & Hr)].
    - eexists. split; [exact Hr|]. split; [by rewrite list_lookup_middle|].
      intros d' m' Hd'. exists m'. split; [|done].
      by apply lookup_app_l_Some.
    - eexists. split; [exact Hr|]. split.
      { apply list_lookup_insert_eq. by eapply lookup_lt_Some. }
      intros d' m' Hd'. destruct (decide (d' = d)) as [->|Hne].
      + assert (m' = m0) as -> by (unfold loc in *; congruence).
        exists m. split.
        { apply list_lookup_insert_eq. by eapply lookup_lt_Some. }
        split.
        * intros l v Hl. by rewrite Hm, Hl.
        * intros l l'. rewrite Hm. destruct (m0 !! l); [done|].
          by case_decide.
      + exists m'. split; [|done]. by rewrite list_lookup_insert_ne. }
  rewrite (DrawFacts.add_subcomponent_returns _ _ _ _ _ _ _ Hp Hr) in Hrun.
  injection Hrun as <-. cbn [dicts polys log].
  by exists p, c, d, m, ds, lg.
Qed.

(** One attachment more, under a dictionary as the resolver leaves it, keeps
    the store well formed. *)
Lemma attachment_store_wf (h : Heap) (self child d : loc) (p c : Component)
    (m : gmap string (option string))
    (ds : list (gmap string (option string))) (lg : list LogRecord) :
  store_wf h →
  compos h !! self = Some p → compos h !! child = Some c →
  (∀ l, l ∈ layers c → is_Some (m !! l)) →
  (∀ l l', l ∈ layers c → m !! l = Some (Some l') → l' ∈ layers p) →
  ds !! d = Some m →
  (∀ d' m', dicts h !! d' = Some m' →
     ∃ m'', ds !! d' = Some m''
            ∧ (∀ l v, m' !! l = Some v → m'' !! l = Some v)
            ∧ (∀ l l', m'' !! l = Some (Some l') →
                       m' !! l = Some (Some l'))) →
  store_wf (mkHeap (<[self := mkComponent (options p) (layers p) (transform p)
                               (subcomponents p ++ [mkSubcomponent child d])
                               (subpolygons p)]> (compos h))
                   ds (polys h) (log h ++ lg)).
Proof.
  intros Hwf Hp Hc Htot Hinto Hd Hgrow.
  set (p' := mkComponent (options p) (layers p) (transform p)
                         (subcomponents p ++ [mkSubcomponent child d])
                         (subpolygons p)).
  pose proof (compos_insert_layers h self p p' Hp eq_refl) as Hcompos.
  assert (∀ x, component_wf h x →
               component_wf (mkHeap (<[self := p']> (compos h)) ds (polys h)
                                    (log h ++ lg)) x) as Hkeep.
  { intros x. by apply component_wf_grows. }
  intros i x Hi. cbn [compos] in Hi.
  destruct (decide (i = self)) as [->|Hne].
  - rewrite list_lookup_insert_eq in Hi by (by eapply lookup_lt_Some).
    injection Hi as <-.
    destruct (Hkeep p (Hwf _ _ Hp)) as [Hsp Hsc].
    split; [exact Hsp|]. cbn [subcomponents p'].
    intros sc [Hold| ->%list_elem_of_singleton]%elem_of_app;
      [by apply Hsc|].
    destruct (Hcompos child c Hc) as (c' & Hc' & Hl).
    exists m, c'. cbn [layermap component compos dicts]. rewrite Hl.
    done.
  - rewrite list_lookup_insert_ne in Hi by done.
    apply Hkeep. by eapply Hwf.
Qed.

(** X9.  [add_subcomponent] keeps the store well formed.  When every
    component of the store is well formed and the call returns, every
    component is well formed afterwards: the new attachment, and also every
    older attachment that holds the dictionary the call has padded. *)
Theorem add_subcomponent_keeps_store_wf (h h' : Heap) (self child : loc)
    (sh : shorthand) :
  store_wf h →
  add_subcomponent self child sh h = (Return tt, h') →
  store_wf h'.
Proof.
  intros Hwf Hrun.
  destruct (add_subcomponent_outcome _ _ _ _ _ Hrun)
    as (p & c & d & m & ds & lg & Hp & Hc & Htot & Hinto & Hd & Hgrow & ->).
  by eapply attachment_store_wf.
Qed.

(** Appending a subpolygon on a layer of the component, for a polygon of
    the store, keeps the store well formed. *)
Lemma add_subpolygon_store_wf (h : Heap) (self polygon : loc) (p : Component)
    (l : string) (lg : list LogRecord) :
  compos h !! self = Some p → l ∈ layers p →
  store_wf h → is_Some (polys h !! polygon) →
  store_wf
    (mkHeap (<[self := mkComponent (options p) (layers p) (transform p)
                        (subcomponents p)
                        (subpolygons p ++ [mkSubpolygon polygon l])]>
               (compos h))
            (dicts h) (polys h) (log h ++ lg)).
Proof.
  intros Hp Hl Hwf Hpoly.
  set (p' := mkComponent (options p) (layers p) (transform p)
                         (subcomponents p)
                         (subpolygons p ++ [mkSubpolygon polygon l])).
  pose proof (compos_insert_layers h self p p' Hp eq_refl) as Hcompos.
  assert (∀ x, component_wf h x →
               component_wf (mkHeap (<[self := p']> (compos h)) (dicts h)
                                    (polys h) (log h ++ lg)) x) as Hkeep.
  { intros x. apply component_wf_grows; [done| |done].
    intros d m Hd. by exists m. }
  intros i x Hi. cbn [compos] in Hi.
  destruct (decide (i = self)) as [->|Hne].
  - rewrite list_lookup_insert_eq in Hi by (by eapply lookup_lt_Some).
    injection Hi as <-.
    destruct (Hkeep p (Hwf _ _ Hp)) as [Hsp Hsc].
    split; [|exact Hsc]. cbn [subpolygons p'].
    intros sp [Hold| ->%list_elem_of_singleton]%elem_of_app;
      [by apply Hsp|done].
  - rewrite list_lookup_insert_ne in Hi by done.
    apply Hkeep. by eapply Hwf.
Qed.

(** [add_subpolygon] under a name that is a layer of [self]. *)
Lemma add_subpolygon_name_run (h : Heap) (self polygon : loc) (p : Component)
    (s : string) :
  compos h !! self = Some p → s ∈ layers p →
  add_subpolygon self polygon (ShStr s) h
  = (Return tt,
     mkHeap (<[self := mkComponent (options p) (layers p) (transform p)
                         (subcomponents p)
                         (subpolygons p ++ [mkSubpolygon polygon s])]>
               (compos h))
            (dicts h) (polys h) (log h ++ [])).
Proof.
  intros Hp Hs. unfold add_subpolygon, parse_subpolygon_layer_shorthand.
  rewrite run_bind, run_bind. unfold get_component at 1. rewrite Hp.
  rewrite decide_True by (by rewrite elem_of_list_to_set). rewrite run_ret.
  rewrite run_bind. unfold get_component. rewrite Hp.
  by rewrite app_nil_r.
Qed.

(** X5.  [add_subpolygon], whatever the polygon and the layer shorthand:
    either the call raises and the whole store is as before, or it appends one
    subpolygon to the list of [self], on a layer of [self], and changes
    nothing else but the log.  The layer is the name given, or, when none is
    given, the only layer of [self].  A well-formed store stays well formed
    when the polygon is one of the store. *)
Theorem add_subpolygon_cases (h : Heap) (self polygon : loc) (sh : shorthand) :
  (∃ e, add_subpolygon self polygon sh h = (Raise e, h))
  ∨ ∃ p l lg,
      compos h !! self = Some p ∧ l ∈ layers p
      ∧ match sh with
        | ShNone => list_to_set (layers p) =@{gset string} {[l]}
                    ∧ lg = [DebugSolePolygonLayer polygon l self]
        | ShStr s => l = s ∧ lg = []
        | _ => False
        end
      ∧ add_subpolygon self polygon sh h
        = (Return tt,
           mkHeap (<[self := mkComponent (options p) (layers p) (transform p)
                               (subcomponents p)
                               (subpolygons p ++ [mkSubpolygon polygon l])]>
                     (compos h))
                  (dicts h) (polys h) (log h ++ lg))
      ∧ (store_wf h → is_Some (polys h !! polygon) →
         store_wf
           (mkHeap (<[self := mkComponent (options p) (layers p) (transform p)
                               (subcomponents p)
                               (subpolygons p ++ [mkSubpolygon polygon l])]>
                      (compos h))
                   (dicts h) (polys h) (log h ++ lg))).
Proof.
  pose proof (λ p l lg Hp Hl Hwf Hpoly,
                add_subpolygon_store_wf h self polygon p l lg Hp Hl Hwf Hpoly)
    as Hkeeps.
  destruct (compos h !! self) as [p|] eqn:Hp.
  2: { left. eexists. unfold add_subpolygon, parse_subpolygon_layer_shorthand.
       rewrite run_bind, run_bind. unfold get_component at 1. by rewrite Hp. }
  destruct sh as [|s|d|].
  - destruct (decide (size (list_to_set (layers p) : gset string) = 1))
      as [Hsize|Hsize].
    2: { left. eexists. unfold add_subpolygon, parse_subpolygon_layer_shorthand.
         rewrite run_bind, run_bind. unfold get_component at 1. rewrite Hp.
         by rewrite decide_False by done. }
    pose proof Hsize as [l Hl]%size_1_elem_of. apply leibniz_equiv in Hl.
    right. exists p, l, [DebugSolePolygonLayer polygon l self].
    split; [done|]. split.
    { assert (l ∈ ({[l]} : gset string)) as Hin by (by apply elem_of_singleton).
      by rewrite <- Hl, elem_of_list_to_set in Hin. }
    assert (l ∈ layers p) as Hin'
      by (assert (l ∈ ({[l]} : gset string)) as Hin
            by (by apply elem_of_singleton);
          by rewrite <- Hl, elem_of_list_to_set in Hin).
    split; [done|]. split; [|by apply Hkeeps].
    unfold add_subpolygon, parse_subpolygon_layer_shorthand.
    rewrite run_bind, run_bind. unfold get_component at 1. rewrite Hp.
    rewrite decide_True by done.
    rewrite Hl, elements_singleton. rewrite run_bind. unfold emit at 1.
    rewrite run_ret. rewrite run_bind. unfold get_component. cbn [compos].
    rewrite Hp. reflexivity.
  - destruct (decide (s ∈ (list_to_set (layers p) : gset string)))
      as [Hs|Hs].
    2: { left. eexists. unfold add_subpolygon, parse_subpolygon_layer_shorthand.
         rewrite run_bind, run_bind. unfold get_component at 1. rewrite Hp.
         by rewrite decide_False by done. }
    right. exists p, s, []. split; [done|].
    rewrite elem_of_list_to_set in Hs.
    split; [done|]. split; [done|]. split; [|by apply Hkeeps].
    by apply add_subpolygon_name_run.
  - left. eexists. unfold add_subpolygon, parse_subpolygon_layer_shorthand.
    rewrite run_bind, run_bind. unfold get_component at 1. by rewrite Hp.
  - left. eexists. unfold add_subpolygon, parse_subpolygon_layer_shorthand.
    rewrite run_bind, run_bind. unfold get_component at 1. by rewrite Hp.
Qed.

Lemma bind_ext_in {A B} (f g : A → list B) (xs : list A) :
  (∀ x, x ∈ xs → f x = g x) → xs ≫= f = xs ≫= g.
Proof.
  induction xs as [|x xs IH]; intros Heq; [done|]. cbn.
  rewrite (Heq x) by (by left). f_equal. apply IH. intros y Hy.
  apply Heq. by right.
Qed.

(** In a store without cycles, the contents of a component do not depend on
    the components of greater or equal rank. *)
Lemma contents_unaffected (h : Heap) (rank : loc → nat) (self : loc)
    (p' : Component) (lg : list LogRecord) :
  ranked h rank →
  ∀ n i flag,
    rank i < rank self →
    contents apply_transform n
             (mkHeap (<[self := p']> (compos h)) (dicts h) (polys h) lg) i flag
    = contents apply_transform n h i flag.
Proof.
  intros Hrank. induction n as [|n IH]; intros i flag Hlt; [done|].
  cbn [contents compos dicts polys].
  rewrite list_lookup_insert_ne by (intros ->; lia).
  unfold loc in *.
  destruct (compos h !! i) as [c|] eqn:Hc; [|done].
  assert (∀ sc, sc ∈ subcomponents c →
            contents apply_transform n
              (mkHeap (<[self := p']> (compos h)) (dicts h) (polys h) lg)
              (component sc) true
            = contents apply_transform n h (component sc) true) as Hsub.
  { intros sc Hsc. apply IH. specialize (Hrank i c sc Hc Hsc). lia. }
  unfold own_contents. cbn [polys]. f_equal. f_equal.
  apply bind_ext_in. intros sc Hsc. by rewrite Hsub.
Qed.

(** X14.  A polygon added is a polygon flattened.  In a well-formed store
    without cycles, after [add_subpolygon(polygon, l)] on a layer [l] of
    [self], [get_subpolygons] on [self] returns what it would have returned
    before, followed by a copy of the polygon on layer [l], moved by the
    transform of [self] when [do_apply_transform] is set. *)
Theorem add_subpolygon_then_flatten (h : Heap) (rank : loc → nat)
    (self polygon : loc) (c : Component) (l : string) (v : Polygon)
    (fuel : nat) (flag : bool) :
  store_wf h → ranked h rank →
  compos h !! self = Some c → l ∈ layers c → polys h !! polygon = Some v →
  rank self < fuel →
  ∃ h1 out h2,
    add_subpolygon self polygon (ShStr l) h = (Return tt, h1)
    ∧ Component_get_subpolygons apply_transform fuel self None flag h1
      = (Return out, h2)
    ∧ Forall2 (has_value h2) out
        (contents apply_transform fuel h self flag
         ++ [((if flag then apply_transform (transform c) else id) v, l)]).
Proof.
  intros Hwf Hrank Hc Hl Hv Hfuel.
  set (c' := mkComponent (options c) (layers c) (transform c)
                         (subcomponents c)
                         (subpolygons c ++ [mkSubpolygon polygon l])).
  set (h1 := mkHeap (<[self := c']> (compos h)) (dicts h) (polys h)
                    (log h ++ [])).
  assert (compos h1 !! self = Some c') as Hc'.
  { apply list_lookup_insert_eq. by eapply lookup_lt_Some. }
  assert (store_wf h1) as Hwf1
    by (by apply add_subpolygon_store_wf; [| | |eexists]).
  assert (ranked h1 rank) as Hrank1.
  { intros i x sc Hi Hsc. cbn [h1 compos] in Hi.
    destruct (decide (i = self)) as [->|Hne].
    - unfold h1 in Hc'. cbn [compos] in Hc'.
      assert (x = c') as -> by (unfold loc in *; congruence).
      by eapply Hrank.
    - rewrite list_lookup_insert_ne in Hi by done. by eapply Hrank. }
  assert (tree_wf h1 fuel self) as Htree
    by (eapply ranked_tree_wf; [done..|by eexists]).
  destruct (FlattenFacts.flatten_refines apply_transform fuel h1 self flag
              Htree) as [_ Hrun].
  destruct (Hrun fuel h1 (le_n _) (FlattenFacts.extends_refl h1))
    as (out & h2 & Hout & _ & Hvals & _).
  exists h1, out, h2. split; [by apply add_subpolygon_name_run|].
  split; [done|].
  assert (contents apply_transform fuel h1 self flag
          = contents apply_transform fuel h self flag
            ++ [((if flag then apply_transform (transform c) else id) v, l)])
    as <-; [|done].
  destruct fuel as [|n]; [lia|]. cbn [contents]. rewrite Hc', Hc.
  cbn [subcomponents subpolygons layers transform c'].
  assert (∀ xs, xs ≫= (λ sc : Subcomponent,
             match dicts h1 !! layermap sc with
             | Some lm => relabel (lm !!.) id
                            (contents apply_transform n h1 (component sc) true)
             | None => []
             end)
          = xs ≫= (λ sc : Subcomponent,
             match dicts h !! layermap sc with
             | Some lm => relabel (lm !!.) id
                            (contents apply_transform n h (component sc) true)
             | None => []
             end) ∨ ¬ xs ⊆ subcomponents c) as Hinner.
  { intros xs.
    destruct (decide (Forall (λ sc, rank (component sc) < rank self) xs))
      as [Hall|Hall].
    - left. apply bind_ext_in. intros sc Hsc. cbn [h1 dicts].
      destruct (dicts h !! layermap sc); [|done].
      unfold h1. rewrite (contents_unaffected h rank); [done..|].
      rewrite Forall_forall in Hall. by apply Hall.
    - right. intros Hsub. apply Hall, Forall_forall. intros sc Hsc.
      eapply Hrank; [done|]. by apply Hsub. }
  destruct (Hinner (subcomponents c)) as [->|Hn]; [|by destruct Hn].
  unfold own_contents. rewrite omap_app. cbn [omap list_omap Draw.polygon layer].
  cbn [h1 polys]. rewrite Hv. cbn [fmap option_fmap option_map].
  rewrite app_assoc. unfold relabel at 1. rewrite omap_app.
  cbn [omap list_omap]. cbn [snd fst].
  rewrite DrawFacts.dict_zip_diag_lookup. by rewrite decide_True by done.
Qed.





Lemma relabel_diag_id (ks : list string) (vals : list (Polygon * string)) :
  Forall (λ v, v.2 ∈ ks) vals →
  relabel (dict_zip ks ks !!.) id vals = vals.
Proof.
  induction vals as [|[v l] vals IH]; intros Hall; [done|].
  apply Forall_cons in Hall as [Hl Hall]. cbn in Hl.
  unfold relabel in *. cbn [omap list_omap fst snd].
  rewrite DrawFacts.dict_zip_diag_lookup, decide_True by done.
  cbn. f_equal. by apply IH.
Qed.

(** A comprehension that looks its layers up in a dictionary lacking one of
    them raises [KeyError] under such a layer. *)
Lemma comprehension_keyerror (h0 : Heap)
    (look : string → option (option string)) (f : Polygon → Polygon)
    (elt : Subpolygon → M (option Subpolygon)) :
  (∀ sp v h r, extends h0 h → has_value h sp v → look v.2 = Some r →
     elt sp h
     = match r with
       | None => (Return None, h)
       | Some l =>
           (Return (Some (mkSubpolygon (length (polys h)) l)),
            mkHeap (compos h) (dicts h) (polys h ++ [f v.1]) (log h))
       end) →
  (∀ sp v h, extends h0 h → has_value h sp v → look v.2 = None →
     elt sp h = (Raise (KeyError v.2), h)) →
  ∀ xs vals h,
    extends h0 h → Forall2 (has_value h) xs vals →
    ¬ Forall (λ v, is_Some (look v.2)) vals →
    ∃ l h',
      comprehension xs elt h = (Raise (KeyError l), h')
      ∧ extends h h' ∧ look l = None ∧ ∃ v, v ∈ vals ∧ v.2 = l.
Proof.
  intros Helt Hmiss xs. induction xs as [|sp xs IH]; intros vals h Hext HF Hn.
  - apply Forall2_nil_inv_l in HF as ->. destruct Hn. by constructor.
  - apply Forall2_cons_inv_l in HF as (v & vals' & Hv & Hvals & ->).
    cbn [comprehension]. rewrite run_bind.
    destruct (look v.2) as [r|] eqn:Hr.
    + assert (¬ Forall (λ v, is_Some (look v.2)) vals') as Hn'.
      { intros Hall. apply Hn. constructor; [by eexists|done]. }
      rewrite (Helt sp v h r) by done.
      destruct r as [l|].
      * set (h1 := mkHeap (compos h) (dicts h) (polys h ++ [f v.1]) (log h)).
        assert (extends h h1) as Hext1 by apply FlattenFacts.extends_alloc.
        destruct (IH vals' h1) as (l' & h' & Hrun & Hext' & Hl' & v' & Hv' & Hvl).
        { by eapply FlattenFacts.extends_trans. }
        { eapply Forall2_impl; [done|]. intros ? ?.
          by apply FlattenFacts.has_value_extends. }
        { done. }
        rewrite run_bind, Hrun. exists l', h'. split; [done|].
        split; [by eapply FlattenFacts.extends_trans|]. split; [done|].
        exists v'. split; [by right|done].
      * destruct (IH vals' h) as (l' & h' & Hrun & Hext' & Hl' & v' & Hv' & Hvl);
          [done..|].
        rewrite run_bind, Hrun. exists l', h'. do 3 (split; [done|]).
        exists v'. split; [by right|done].
    + rewrite (Hmiss sp v h) by done. exists v.2, h.
      split; [done|]. split; [apply FlattenFacts.extends_refl|].
      split; [done|]. exists v. split; [by left|done].
Qed.

(** The two inner comprehensions of [get_subpolygons] on a well-formed tree:
    they return copies carrying what the component holds in its own
    coordinates, which is what [_get_subpolygons] returns. *)
Lemma flatten_gathers (h0 : Heap) (n : nat) (self : loc) (c : Component) :
  tree_wf h0 (S n) self → compos h0 !! self = Some c →
  Forall (λ v, v.2 ∈ layers c) (contents apply_transform (S n) h0 self false)
  ∧ ∀ fuel h,
      n ≤ fuel → extends h0 h →
      ∃ inner h1 own h2,
        nested_comprehension (subcomponents c)
          (Subcomponent_get_subpolygons
             (λ child, Component_get_subpolygons apply_transform fuel child
                                                 None true)) h
        = (Return inner, h1)
        ∧ comprehension (subpolygons c)
            (λ subpoly_inner_2,
               subpoly ← Subpolygon_get_subpolygon subpoly_inner_2;
               mret (Some subpoly)) h1
          = (Return own, h2)
        ∧ extends h h2
        ∧ Forall2 (has_value h2) (inner ++ own)
                  (contents apply_transform (S n) h0 self false).
Proof.
  intros Hwf Hc.
  destruct (FlattenFacts.flatten_refines apply_transform (S n) h0 self false Hwf)
    as [(c0 & Hc0 & Hlayers) _].
  assert (c0 = c) as -> by (unfold loc in *; congruence).
  split; [done|].
  destruct Hwf as (c0 & Hc0' & Hown & Hsub).
  assert (c0 = c) as -> by (unfold loc in *; congruence).
  set (vals_of := λ sc : Subcomponent,
         match dicts h0 !! layermap sc with
         | Some lm =>
             relabel (lm !!.) id
                     (contents apply_transform n h0 (component sc) true)
         | None => []
         end).
  assert (Forall (λ v, v.2 ∈ layers c)
                 ((subcomponents c ≫= vals_of)
                  ++ own_contents h0 (subpolygons c))) as Hall.
  { apply Forall_app. split.
    - apply Forall_forall. intros v Hv.
      apply list_elem_of_bind in Hv as (sc & Hv & Hsc).
      destruct (Hsub sc Hsc) as (Hwfc & lm & child & Hlm & Hchild & _ & Hinto).
      destruct (FlattenFacts.flatten_refines apply_transform n h0
                  (component sc) true Hwfc) as [(c' & Hc' & Hlc) _].
      assert (c' = child) as -> by congruence.
      unfold vals_of in Hv. rewrite Hlm in Hv.
      pose proof (FlattenFacts.relabel_layers (lm !!.) id
                    (contents apply_transform n h0 (component sc) true)) as Hl.
      rewrite Forall_forall in Hl. destruct (Hl v Hv) as (v0 & Hv0 & Hl0).
      rewrite Forall_forall in Hlc.
      eapply Hinto; [|exact Hl0]. by apply Hlc.
    - eapply Forall_impl; [apply FlattenFacts.own_contents_layers|].
      intros v (sp & Hsp & ->). by apply Hown. }
  assert (contents apply_transform (S n) h0 self false
          = (subcomponents c ≫= vals_of) ++ own_contents h0 (subpolygons c))
    as ->.
  { cbn [contents]. rewrite Hc. fold vals_of. by apply relabel_diag_id. }
  intros fuel h Hfuel Hext.
  edestruct (FlattenFacts.nested_copies h0
               (Subcomponent_get_subpolygons
                  (λ child, Component_get_subpolygons apply_transform fuel
                              child None true))
               vals_of (subcomponents c))
    as (inner & h1 & Hrun1 & Hext1 & Hinner & Hfresh1); [|exact Hext|].
  { intros sc Hsc.
    destruct (Hsub sc Hsc) as (Hwfc & lm & child & Hlm & Hchild & Htotal & _).
    destruct (FlattenFacts.flatten_refines apply_transform n h0
                (component sc) true Hwfc) as [(c' & Hc' & Hlc) Hrun].
    assert (c' = child) as -> by congruence.
    unfold vals_of. rewrite Hlm.
    apply FlattenFacts.subcomponent_refines; [done| |].
    - eapply Forall_impl; [done|]. intros v Hv. by apply Htotal.
    - intros h2 Hext2. by apply Hrun. }
  edestruct (FlattenFacts.comprehension_copies h0 (λ l, Some (Some l)) id
               (λ subpoly_inner_2,
                  subpoly ← Subpolygon_get_subpolygon subpoly_inner_2;
                  mret (Some subpoly)))
    as (own & h2 & Hrun2 & Hext2 & Hown_vals & Hfresh2);
    [|by eapply (FlattenFacts.extends_trans h0 h h1)
     |by apply (FlattenFacts.own_contents_values h0 h1),
           (λ sp Hsp, proj2 (Hown sp Hsp));
         eapply FlattenFacts.extends_trans
     |by apply Forall_forall; intros; eexists|].
  { intros sp v h3 r Hext3 [Hl Hv] [= <-]. rewrite run_bind.
    unfold Subpolygon_get_subpolygon. rewrite run_bind.
    unfold Polygon_copy. rewrite run_bind. unfold get_polygon_value.
    rewrite Hv. unfold new_polygon. rewrite run_ret, run_ret.
    by rewrite Hl. }
  rewrite FlattenFacts.relabel_keep in Hown_vals.
  exists inner, h1, own, h2. do 2 (split; [done|]).
  split; [by eapply FlattenFacts.extends_trans|].
  apply Forall2_app; [|done].
  eapply Forall2_impl; [exact Hinner|]. intros ? ?.
  by apply FlattenFacts.has_value_extends.
Qed.

(** X16.  Flattening under a layer map given by the caller.  In a
    well-formed store without cycles, with [lm] a dictionary of the store:
    when a key of [lm] is no layer of [self], [get_subpolygons(lm)] fails its
    assertion and changes nothing; otherwise, when [lm] is defined on the
    layer of everything [self] holds (what [_get_subpolygons] returns), the
    call returns that, relabelled through [lm] (what maps to [None] is
    dropped) and moved by the transform of [self] when [do_apply_transform]
    is set; and when [lm] lacks such a layer the call raises [KeyError] under
    a layer that [lm] lacks: a missing layer is not read as discard here. *)
Theorem flatten_with_layermap (h : Heap) (rank : loc → nat) (self d : loc)
    (c : Component) (lm : gmap string (option string)) (fuel : nat)
    (flag : bool) :
  store_wf h → ranked h rank →
  compos h !! self = Some c → dicts h !! d = Some lm → rank self < fuel →
  (¬ dom lm ⊆ list_to_set (layers c) →
   Component_get_subpolygons apply_transform fuel self (Some d) flag h
   = (Raise AssertionError, h))
  ∧ (dom lm ⊆ list_to_set (layers c) →
     Forall (λ v, is_Some (lm !! v.2))
            (contents apply_transform fuel h self false) →
     ∃ out h',
       Component_get_subpolygons apply_transform fuel self (Some d) flag h
       = (Return out, h')
       ∧ extends h h'
       ∧ Forall2 (has_value h') out
           (relabel (lm !!.)
                    (if flag then apply_transform (transform c) else id)
                    (contents apply_transform fuel h self false)))
  ∧ (dom lm ⊆ list_to_set (layers c) →
     ¬ Forall (λ v, is_Some (lm !! v.2))
              (contents apply_transform fuel h self false) →
     ∃ l h',
       Component_get_subpolygons apply_transform fuel self (Some d) flag h
       = (Raise (KeyError l), h')
       ∧ extends h h' ∧ lm !! l = None ∧ l ∈ layers c).
Proof.
  intros Hwf Hrank Hc Hd Hfuel.
  destruct fuel as [|n]; [lia|].
  assert (tree_wf h (S n) self) as Htree
    by (eapply ranked_tree_wf; [done..|by eexists]).
  destruct (flatten_gathers h n self c Htree Hc) as [Hlayers Hgather].
  destruct (Hgather n h (le_n _) (FlattenFacts.extends_refl h))
    as (inner & h1 & own & h2 & Hrun1 & Hrun2 & Hext2 & Hvals).
  set (f := if flag then apply_transform (transform c) else id).
  set (elt := λ sp : Subpolygon,
         match lm !! layer sp with
         | None => raise (KeyError (layer sp))
         | Some None => mret None
         | Some (Some l) =>
             p ← Subpolygon_get_polygon sp;
             p ← (if flag then Polygon_apply_transform apply_transform p
                                 (transform c)
                  else mret p);
             mret (Some (mkSubpolygon p l))
         end : M (option Subpolygon)).
  assert (∀ sp v h3 r,
    extends h h3 → has_value h3 sp v → lm !! v.2 = Some r →
    elt sp h3
    = match r with
      | None => (Return None, h3)
      | Some l =>
          (Return (Some (mkSubpolygon (length (polys h3)) l)),
           mkHeap (compos h3) (dicts h3) (polys h3 ++ [f v.1]) (log h3))
      end) as Helt.
  { intros sp v h3 r Hext3 [Hl Hv] Hr. unfold elt. rewrite Hl, Hr.
    destruct r as [l|]; [|done].
    rewrite run_bind. erewrite FlattenFacts.get_polygon_run by done.
    rewrite run_bind. unfold f. destruct flag.
    + by rewrite FlattenFacts.transform_copy_run.
    + done. }
  split; [|split].
  - intros Hsub. cbn [Component_get_subpolygons]. rewrite run_bind.
    unfold get_component at 1. rewrite Hc.
    rewrite run_bind, run_bind. unfold get_dict at 1. rewrite Hd.
    by rewrite decide_False by done.
  - intros Hsub Htotal. cbn [Component_get_subpolygons]. rewrite run_bind.
    unfold get_component at 1. rewrite Hc.
    rewrite run_bind, run_bind. unfold get_dict at 1. rewrite Hd.
    rewrite decide_True by done. rewrite run_ret.
    rewrite run_bind, Hrun1, run_bind, Hrun2.
    destruct (FlattenFacts.comprehension_copies h (lm !!.) f elt Helt
                (inner ++ own) _ h2 Hext2 Hvals Htotal)
      as (out & h' & Hrun & Hext' & Hout & _).
    unfold elt in Hrun. rewrite Hrun. exists out, h'. split; [done|].
    split; [by eapply FlattenFacts.extends_trans|done].
  - intros Hsub Hpartial. cbn [Component_get_subpolygons]. rewrite run_bind.
    unfold get_component at 1. rewrite Hc.
    rewrite run_bind, run_bind. unfold get_dict at 1. rewrite Hd.
    rewrite decide_True by done. rewrite run_ret.
    rewrite run_bind, Hrun1, run_bind, Hrun2.
    destruct (comprehension_keyerror h (lm !!.) f elt Helt)
      with (xs := inner ++ own) (h := h2)
           (vals := contents apply_transform (S n) h self false)
      as (l & h' & Hrun & Hext' & Hl & v & Hv & Hvl); [|done..|].
    { intros sp v h3 Hext3 [Hl Hv] Hr. unfold elt. by rewrite Hl, Hr. }
    unfold elt in Hrun. rewrite Hrun. exists l, h'. split; [done|].
    split; [by eapply FlattenFacts.extends_trans|]. split; [done|].
    rewrite Forall_forall in Hlayers. rewrite <- Hvl. by apply Hlayers.
Qed.

End Store.

End StoreFacts.

(** *** Which options a class declares *)

Module OptionsMore.

Import Options.

Lemma foldl_declare_sound (items : list (string * attribute))
    (self : gmap string value) (k : string) (v : value) :
  foldl declare self items !! k = Some v →
  self !! k = Some v ∨ (k, Option_ v) ∈ items.
Proof.
  revert self. induction items as [|[name a] items IH]; intros self; cbn.
  - by left.
  - intros [Hself|Hin]%IH; [|right; by right].
    unfold declare in Hself; cbn in Hself. destruct a as [default|].
    + destruct (decide (name = k)) as [->|Hne].
      * rewrite lookup_insert_eq in Hself. injection Hself as ->.
        right. by left.
      * rewrite lookup_insert_ne in Hself by done. by left.
    + by left.
Qed.

Lemma foldl_declare_complete (items : list (string * attribute))
    (self : gmap string value) (k : string) :
  is_Some (self !! k) ∨ (∃ d, (k, Option_ d) ∈ items) →
  is_Some (foldl declare self items !! k).
Proof.
  revert self. induction items as [|[name a] items IH]; intros self; cbn.
  - intros [?|[d Hd]]; [done|]. by apply elem_of_nil in Hd.
  - intros Hk. apply IH.
    destruct Hk as [Hk|[d [Heq|Hin]%elem_of_cons]].
    + left. unfold declare; cbn. destruct a; [|done].
      destruct (decide (name = k)) as [->|Hne].
      * rewrite lookup_insert_eq. by eexists.
      * by rewrite lookup_insert_ne.
    + injection Heq as <- <-. left. unfold declare; cbn.
      rewrite lookup_insert_eq. by eexists.
    + right. by exists d.
Qed.

Lemma declare_mro_sound (pre rest : list class) :
  Forall (λ c, issubclass_Options c = true) pre →
  (rest = [] ∨ ∃ c post, rest = c :: post ∧ issubclass_Options c = false) →
  ∀ (self : gmap string value) (k : string) (v : value),
    declare_mro (pre ++ rest) self !! k = Some v →
    self !! k = Some v ∨ ∃ c, c ∈ pre ∧ (k, Option_ v) ∈ vars c.
Proof.
  intros Hpre Hrest. induction Hpre as [|c pre Hc _ IH]; intros self k v; cbn.
  - destruct Hrest as [->|(c & post & -> & Hc)]; cbn; [by left|].
    rewrite Hc. by left.
  - rewrite Hc. cbn. intros [Hself|(c' & Hc' & Hin)]%IH.
    + apply foldl_declare_sound in Hself as [?|?]; [by left|].
      right. exists c. split; [by left|done].
    + right. exists c'. split; [by right|done].
Qed.

Lemma declare_mro_complete (pre rest : list class) :
  Forall (λ c, issubclass_Options c = true) pre →
  ∀ (self : gmap string value) (k : string),
    is_Some (self !! k) ∨ (∃ c d, c ∈ pre ∧ (k, Option_ d) ∈ vars c) →
    is_Some (declare_mro (pre ++ rest) self !! k).
Proof.
  intros Hpre. induction Hpre as [|c pre Hc _ IH]; intros self k; cbn.
  - intros [Hk|(c & d & Hc & _)]; [|by apply elem_of_nil in Hc].
    destruct rest as [|c post]; cbn; [done|].
    destruct (issubclass_Options c); cbn; [|done].
    revert self Hk. clear. revert c.
    induction post as [|c' post IH]; intros c self Hk; cbn.
    + apply foldl_declare_complete. by left.
    + destruct (issubclass_Options c'); cbn.
      * apply IH. apply foldl_declare_complete. by left.
      * apply foldl_declare_complete. by left.
  - rewrite Hc. cbn. intros Hk. apply IH.
    destruct Hk as [Hk|(c' & d & [->|Hc']%elem_of_cons & Hin)].
    + left. apply foldl_declare_complete. by left.
    + left. apply foldl_declare_complete. right. by exists d.
    + right. by exists c', d.
Qed.

(** X10.  The options of an instance built without overrides.  With the
    method resolution order split at its first class that is no subclass of
    [Component.Options], the resolved options have exactly the names bound
    to a [pc.Option] in the body of some class before the split, and each
    value is a default one of those classes declares under that name.  The
    classes from the split on contribute nothing, and neither does a name
    bound to anything but a [pc.Option]. *)
Theorem Options_are_the_declared_ones (pre rest : list class) :
  Forall (λ c, issubclass_Options c = true) pre →
  (rest = [] ∨ ∃ c post, rest = c :: post ∧ issubclass_Options c = false) →
  ∃ resolved,
    __init__ (pre ++ rest) None = Return resolved
    ∧ (∀ k v, resolved !! k = Some v →
              ∃ c, c ∈ pre ∧ (k, Option_ v) ∈ vars c)
    ∧ (∀ k, is_Some (resolved !! k)
            ↔ ∃ c d, c ∈ pre ∧ (k, Option_ d) ∈ vars c).
Proof.
  intros Hpre Hrest. eexists. split; [reflexivity|].
  assert (∀ k v, declare_mro (pre ++ rest) ∅ !! k = Some v →
                 ∃ c, c ∈ pre ∧ (k, Option_ v) ∈ vars c) as Hsound.
  { intros k v Hk.
    destruct (declare_mro_sound pre rest Hpre Hrest ∅ k v Hk) as [He|?];
      [|done].
    by rewrite lookup_empty in He. }
  split; [exact Hsound|]. intros k. split.
  - intros [v Hv]. destruct (Hsound k v Hv) as (c & Hc & Hin).
    by exists c, v.
  - intros Hk. apply declare_mro_complete; [done|]. by right.
Qed.

End OptionsMore.

(** *** Edges, anchors and padding of a box of points *)

Module BBoxMore.

Import BBox Spec BBoxSpec PyFacts BBoxFacts.

Lemma edge_run (s : list BBox) (self : loc) (b : BBox) (text : string)
    (f : BBox → num) :
  s !! self = Some b → is_empty self s = (Return false, s) →
  (assert_nonempty self text;; b ← get self; mret (f b)) s = (Return (f b), s).
Proof.
  intros Hs He.
  rewrite run_bind, (assert_nonempty_returns _ _ _ He), run_bind.
  unfold get. by rewrite Hs.
Qed.

(** X11.  The edges of a box built from a non-empty list of finite points:
    [left] and [right] are the least and the greatest x-coordinate, [bottom]
    and [top] the least and the greatest y-coordinate (the y axis points up),
    so that left is at most right and bottom at most top, and every point
    lies between them.  The queries change nothing. *)
Theorem edges_enclose_the_points (s : list BBox) (transformable : option loc)
    (pts : list (Q * Q)) :
  pts ≠ [] →
  ∃ self s' l r bt t,
    __init__ (Some (finite_point <$> pts)) transformable s = (Return self, s')
    ∧ left self s' = (Return (Fin l), s')
    ∧ right self s' = (Return (Fin r), s')
    ∧ bottom self s' = (Return (Fin bt), s')
    ∧ top self s' = (Return (Fin t), s')
    ∧ is_min pts.*1 l ∧ is_max pts.*1 r
    ∧ is_min pts.*2 bt ∧ is_max pts.*2 t
    ∧ (l <= r)%Q ∧ (bt <= t)%Q
    ∧ ∀ p, p ∈ pts → (l <= p.1)%Q ∧ (p.1 <= r)%Q
                     ∧ (bt <= p.2)%Q ∧ (p.2 <= t)%Q.
Proof.
  intros Hne.
  destruct (init_accumulates s pts transformable) as (b & Hrun & Hacc & _).
  destruct pts as [|p0 pts]; [done|].
  pose proof Hacc as (Mx & My & mx & my & HMx & HMy & Hmx & Hmy
                      & HbMx & HbMy & Hbmx & Hbmy).
  assert ((s ++ [b]) !! length s = Some b) as Hb
    by by apply list_lookup_middle.
  pose proof (accumulated_nonempty _ _ _ _ _ Hb Hacc) as He.
  exists (length s), (s ++ [b]), mx, Mx, my, My.
  split; [done|].
  split; [unfold left; rewrite (edge_run _ _ b) by done; by rewrite Hbmx|].
  split; [unfold right; rewrite (edge_run _ _ b) by done; by rewrite HbMx|].
  split; [unfold bottom; rewrite (edge_run _ _ b) by done; by rewrite Hbmy|].
  split; [unfold top; rewrite (edge_run _ _ b) by done; by rewrite HbMy|].
  do 4 (split; [done|]).
  destruct HMx as [HMx1 HMx2], HMy as [HMy1 HMy2],
           Hmx as [Hmx1 Hmx2], Hmy as [Hmy1 Hmy2].
  split; [by apply HMx2|]. split; [by apply HMy2|].
  intros p Hp.
  assert (p.1 ∈ (p0 :: pts).*1) as H1 by (by apply list_elem_of_fmap_2).
  assert (p.2 ∈ (p0 :: pts).*2) as H2 by (by apply list_elem_of_fmap_2).
  auto.
Qed.






Lemma grow_max_nonempty (x M : num) :
  eqb M NegInf = false → eqb (if gtb x M then x else M) NegInf = false.
Proof.
  destruct x as [| |x|], M as [| |M|]; cbn; try done;
    by destruct (Qle_bool x M).
Qed.

Lemma grow_min_nonempty (x m : num) :
  eqb m PosInf = false → eqb (if ltb x m then x else m) PosInf = false.
Proof.
  destruct x as [| |x|], m as [| |m|]; cbn; try done;
    by destruct (Qle_bool m x).
Qed.

Lemma grow_max_finite (q : Q) (M : num) :
  eqb (if gtb (Fin q) M then Fin q else M) NegInf = false.
Proof. destruct M as [| |M|]; cbn; try done; by destruct (Qle_bool q M). Qed.

Lemma grow_min_finite (q : Q) (m : num) :
  eqb (if ltb (Fin q) m then Fin q else m) PosInf = false.
Proof. destruct m as [| |m|]; cbn; try done; by destruct (Qle_bool m q). Qed.

Lemma add_point_run (s : list BBox) (self : loc) (b : BBox)
    (point : num * num) :
  s !! self = Some b →
  add_point self point s
  = (Return tt,
     <[self := mkBBox (if gtb point.1 (max_x b) then point.1 else max_x b)
                      (if gtb point.2 (max_y b) then point.2 else max_y b)
                      (if ltb point.1 (min_x b) then point.1 else min_x b)
                      (if ltb point.2 (min_y b) then point.2 else min_y b)
                      (_transformable b)]> s).
Proof.
  intros Hs. unfold add_point. rewrite run_bind. unfold get. rewrite Hs.
  unfold put. destruct b as [Mx My mx my t], point as [x y].
  cbn [fst snd max_x max_y min_x min_y _transformable].
  destruct (gtb x Mx); cbn [max_x max_y min_x min_y _transformable];
    destruct (ltb x mx); cbn [max_x max_y min_x min_y _transformable];
    destruct (gtb y My); cbn [max_x max_y min_x min_y _transformable];
    destruct (ltb y my); reflexivity.
Qed.

(** X17.  [add_point] on any box and any point, the coordinates being
    finite numbers, infinities or NaN: the box keeps what it is bound to; a
    box that is not empty never becomes empty again; a point with finite
    coordinates makes any box not empty; and a coordinate that is NaN changes
    neither bound of its axis, so that the point (NaN, NaN) changes
    nothing. *)
Theorem add_point_never_empties (s : list BBox) (self : loc) (b : BBox)
    (point : num * num) :
  s !! self = Some b →
  ∃ b',
    add_point self point s = (Return tt, <[self := b']> s)
    ∧ _transformable b' = _transformable b
    ∧ (is_empty self s = (Return false, s) →
       is_empty self (<[self := b']> s) = (Return false, <[self := b']> s))
    ∧ (∀ x y, point = (Fin x, Fin y) →
       is_empty self (<[self := b']> s) = (Return false, <[self := b']> s))
    ∧ (point.1 = NaN → max_x b' = max_x b ∧ min_x b' = min_x b)
    ∧ (point.2 = NaN → max_y b' = max_y b ∧ min_y b' = min_y b)
    ∧ (point = (NaN, NaN) → <[self := b']> s = s).
Proof.
  intros Hs. eexists. split; [by apply add_point_run|].
  split; [done|].
  assert (∀ b', <[self := b']> s !! self = Some b') as Hb'.
  { intros b'. apply list_lookup_insert_eq. by eapply lookup_lt_Some. }
  split; [|split; [|split; [|split]]].
  - rewrite (is_empty_run _ _ b) by done. intros [= He].
    rewrite (is_empty_run _ _ _ (Hb' _)).
    cbn [max_x max_y min_x min_y].
    apply orb_false_elim in He as [He Hmy].
    apply orb_false_elim in He as [He Hmx].
    apply orb_false_elim in He as [HMx HMy].
    by rewrite grow_max_nonempty, grow_max_nonempty, grow_min_nonempty,
      grow_min_nonempty.
  - intros x y ->. rewrite (is_empty_run _ _ _ (Hb' _)).
    cbn [max_x max_y min_x min_y fst snd].
    by rewrite !grow_max_finite, !grow_min_finite.
  - intros ->. cbn. by destruct (max_x b).
  - intros ->. cbn. by destruct (max_y b).
  - intros ->. cbn.
    match goal with
    | |- <[_ := ?b']> _ = _ =>
        replace b' with b by (by destruct b as [[] [] ? ? ?])
    end.
    by apply list_insert_id.
Qed.

End BBoxMore.

(** *** The further theorems at concrete inputs *)

Module MoreWitnesses.

Import Draw Spec StoreSpec BBoxSpec Examples.

Lemma world_wf : store_wf world.
Proof.
  intros i c Hi.
  destruct i as [|[|[|[|i]]]]; cbn in Hi; try discriminate;
    injection Hi as <-; split; cbn [subpolygons subcomponents];
    intros z Hz; try (by apply elem_of_nil in Hz).
  repeat (apply elem_of_cons in Hz as [->|Hz]; [compute_done|]).
  by apply elem_of_nil in Hz.
Qed.


Lemma world_attached_wf : store_wf world_attached.
Proof.
  intros i c Hi.
  destruct i as [|[|[|[|i]]]]; vm_compute in Hi; try discriminate;
    injection Hi as <-; split; cbn [subpolygons subcomponents];
    intros z Hz; try (by apply elem_of_nil in Hz).
  - repeat (apply elem_of_cons in Hz as [->|Hz]; [compute_done|]).
    by apply elem_of_nil in Hz.
  - apply list_elem_of_singleton in Hz as ->.
    exists {["A"%string := Some "C"%string; "B"%string := None]},
           (mkComponent ∅ ["A"; "B"]%string (10, 0)%Z []
                        [mkSubpolygon 0 "A"; mkSubpolygon 1 "B"]).
    split; [vm_compute; reflexivity|]. split; [vm_compute; reflexivity|].
    split.
    + intros l Hl. cbn [layers] in Hl.
      repeat (apply elem_of_cons in Hl as [->|Hl]; [compute_done|]).
      by apply elem_of_nil in Hl.
    + intros l l' Hl. cbn [layers] in Hl.
      repeat (apply elem_of_cons in Hl as [->|Hl];
              [intros Heq; vm_compute in Heq; try discriminate Heq;
               injection Heq as <-; compute_done|]).
      by apply elem_of_nil in Hl.
Qed.

Lemma world_attached_ranked : ranked world_attached height_in_world.
Proof.
  intros i c sc Hi Hsc.
  destruct i as [|[|[|[|i]]]]; vm_compute in Hi; try discriminate;
    injection Hi as <-; cbn [subcomponents] in Hsc;
    try (by apply elem_of_nil in Hsc).
  apply list_elem_of_singleton in Hsc as ->. cbn. lia.
Qed.


(** X1 on [world]: the instance 3 (the one layer D) under [y] with the
    shorthand C. *)
Lemma resolve_name_shorthand_witness :
  parse_subcomponent_layermap_shorthand 1 3 (ShStr "C") world
  = (Return (length (dicts world)),
     mkHeap (compos world)
            (dicts world ++ [{["D"%string := Some "C"%string]}])
            (polys world) (log world)).
Proof.
  apply (proj2 (proj2 (AttachFacts.resolve_name_shorthand
                         world 1 3 _ _ "C" eq_refl eq_refl)) "D"%string);
    compute_done.
Defined.

(** X2 on [world]: [x] under [y] with the dictionary 0. *)
Lemma resolved_layermap_is_total_witness :
  let h1 := (parse_subcomponent_layermap_shorthand 1 0 (ShDict 0) world).2 in
  compos h1 = compos world ∧ polys h1 = polys world
  ∧ log world `prefix_of` log h1
  ∧ (∀ d', d' ≠ 0 → d' < length (dicts world) →
           dicts h1 !! d' = dicts world !! d')
  ∧ ∃ p c m,
      compos world !! 1 = Some p ∧ compos world !! 0 = Some c
      ∧ dicts h1 !! 0 = Some m
      ∧ (∀ l, l ∈ layers c → is_Some (m !! l))
      ∧ (∀ l l', l ∈ layers c → m !! l = Some (Some l') → l' ∈ layers p).
Proof.
  apply (AttachFacts.resolved_layermap_is_total world _ 1 0 0 (ShDict 0)).
  vm_compute. reflexivity.
Defined.

(** X3 on [world]: [x] under [y] with no layer map. *)
Lemma failed_attachment_changes_nothing_witness :
  (add_subcomponent 1 0 ShNone world).2 = world
  ∧ parse_subcomponent_layermap_shorthand 1 0 ShNone world
    = (Raise (Exception
                (MustSpecifyLayermap (list_to_set ["A"; "B"]%string) 0
                                     (list_to_set ["C"%string]) 1)), world).
Proof.
  apply (AttachFacts.failed_attachment_changes_nothing world _ 1 0 ShNone).
  vm_compute. reflexivity.
Defined.

(** X4 on [world]: after [y.add_subcomponent(x, d)] with [d] the dictionary
    0, a second [y.add_subcomponent(x, d)] is refused. *)
Lemma padded_dictionary_is_rejected_on_reuse_witness :
  ∃ e, InvalidLayerMap e
       ∧ add_subcomponent 1 0 (ShDict 0) world_attached
         = (Raise e, world_attached).
Proof.
  apply (AttachFacts.padded_dictionary_is_rejected_on_reuse
           world world_attached 1 0 0
           (mkComponent ∅ ["A"; "B"]%string (10, 0)%Z []
                        [mkSubpolygon 0 "A"; mkSubpolygon 1 "B"])
           {["A"%string := Some "C"%string]} "B" 1 0
           (mkComponent ∅ ["C"%string] (0, 5)%Z [mkSubcomponent 0 0] [])
           (mkComponent ∅ ["A"; "B"]%string (10, 0)%Z []
                        [mkSubpolygon 0 "A"; mkSubpolygon 1 "B"]));
    first [reflexivity | compute_done | by vm_compute].
Defined.

(** X7 on [world_attached]: flattening [y]. *)
Lemma acyclic_store_flattens_witness :
  ∃ out h',
    Component_get_subpolygons translate 2 1 None true world_attached
    = (Return out, h')
    ∧ extends world_attached h'
    ∧ Forall2 (has_value h') out (contents translate 2 world_attached 1 true)
    ∧ Forall (fresh_in world_attached) out
    ∧ Forall (λ sp, layer sp ∈ ["C"%string]) out.
Proof.
  apply (StoreFacts.acyclic_store_flattens translate world_attached
           height_in_world 1
           (mkComponent ∅ ["C"%string] (0, 5)%Z [mkSubcomponent 0 0] [])
           2 true world_attached_wf world_attached_ranked);
    first [by vm_compute | cbn; lia].
Defined.

(** X8 on [world_self_attached]: [x], attached to itself. *)
Lemma cyclic_store_never_flattens_witness :
  ∃ e h',
    Component_get_subpolygons translate 1000 0 None true world_self_attached
    = (Raise e, h').
Proof.
  apply (StoreFacts.cyclic_store_never_flattens translate world_self_attached
           (λ i, i = 0) 1000 0 None true world_self_attached).
  - intros i ->.
    exists (mkComponent ∅ ["A"; "B"]%string (10, 0)%Z [mkSubcomponent 0 4]
                        [mkSubpolygon 0 "A"; mkSubpolygon 1 "B"]),
           (mkSubcomponent 0 4).
    split; [by vm_compute|]. split; [by left|done].
  - reflexivity.
  - repeat split. reflexivity.
Defined.

(** X9 on [world]: [y.add_subcomponent(x, d)] with [d] the dictionary 0. *)
Lemma add_subcomponent_keeps_store_wf_witness : store_wf world_attached.
Proof.
  apply (StoreFacts.add_subcomponent_keeps_store_wf world world_attached 1 0
           (ShDict 0) world_wf).
  vm_compute. reflexivity.
Defined.

(** X10 on the options of [Wide]: the names are width and height. *)
Lemma Options_are_the_declared_ones_witness :
  ∃ resolved,
    Options.__init__ Wide_mro None = Return resolved
    ∧ (∀ k v, resolved !! k = Some v →
              ∃ c, c ∈ [Wide_Options; Rect_Options; Component_Options]
                   ∧ (k, Options.Option_ v) ∈ Options.vars c)
    ∧ (∀ k, is_Some (resolved !! k)
            ↔ ∃ c d, c ∈ [Wide_Options; Rect_Options; Component_Options]
                     ∧ (k, Options.Option_ d) ∈ Options.vars c).
Proof.
  apply (OptionsMore.Options_are_the_declared_ones
           [Wide_Options; Rect_Options; Component_Options]
           [dict_class; object_class]).
  - repeat constructor.
  - right. exists dict_class, [object_class]. split; reflexivity.
Defined.

(** X11 on the box of the corners. *)
Lemma edges_enclose_the_points_witness :
  ∃ self s' l r bt t,
    BBox.__init__ (Some (finite_point <$> corners)) None [] = (Return self, s')
    ∧ BBox.left self s' = (Return (BBox.Fin l), s')
    ∧ BBox.right self s' = (Return (BBox.Fin r), s')
    ∧ BBox.bottom self s' = (Return (BBox.Fin bt), s')
    ∧ BBox.top self s' = (Return (BBox.Fin t), s')
    ∧ is_min corners.*1 l ∧ is_max corners.*1 r
    ∧ is_min corners.*2 bt ∧ is_max corners.*2 t
    ∧ (l <= r)%Q ∧ (bt <= t)%Q
    ∧ ∀ p, p ∈ corners → (l <= p.1)%Q ∧ (p.1 <= r)%Q
                         ∧ (bt <= p.2)%Q ∧ (p.2 <= t)%Q.
Proof.
  apply (BBoxMore.edges_enclose_the_points [] None corners). discriminate.
Defined.



(** X14 on [world_attached]: [y.add_subpolygon(square, C)], then flattening
    [y]. *)
Lemma add_subpolygon_then_flatten_witness :
  ∃ h1 out h2,
    add_subpolygon 1 1 (ShStr "C") world_attached = (Return tt, h1)
    ∧ Component_get_subpolygons translate 2 1 None true h1 = (Return out, h2)
    ∧ Forall2 (has_value h2) out
        (contents translate 2 world_attached 1 true
         ++ [(translate (0, 5)%Z square, "C"%string)]).
Proof.
  apply (StoreFacts.add_subpolygon_then_flatten translate world_attached
           height_in_world 1 1
           (mkComponent ∅ ["C"%string] (0, 5)%Z [mkSubcomponent 0 0] [])
           "C" square 2 true world_attached_wf world_attached_ranked);
    first [by vm_compute | compute_done | cbn; lia].
Defined.


(** X16 on [world_attached]: flattening [y] under the dictionary 3, which
    sends C to A. *)
Lemma flatten_with_layermap_witness :
  ∃ out h',
    Component_get_subpolygons translate 2 1 (Some 3) true world_attached
    = (Return out, h')
    ∧ extends world_attached h'
    ∧ Forall2 (has_value h') out
        (relabel (({["C"%string := Some "A"%string]}
                     : gmap string (option string)) !!.)
                 (translate (0, 5)%Z)
                 (contents translate 2 world_attached 1 false)).
Proof.
  apply (proj1 (proj2 (StoreFacts.flatten_with_layermap translate
                         world_attached height_in_world 1 3
                         (mkComponent ∅ ["C"%string] (0, 5)%Z
                                      [mkSubcomponent 0 0] [])
                         {["C"%string := Some "A"%string]} 2 true
                         world_attached_wf world_attached_ranked
                         eq_refl eq_refl (le_n 2)))).
  - compute_done.
  - replace (contents translate 2 world_attached 1 false)
      with [([(10, 0); (14, 0); (10, 3)]%Z, "C"%string)]
      by (vm_compute; reflexivity).
    repeat constructor. by eexists.
Defined.

(** X17 on the box of the corners: adding the point (NaN, 7). *)
Lemma add_point_never_empties_witness :
  ∃ b',
    BBox.add_point 0 (BBox.NaN, BBox.Fin 7) boxes
    = (Return tt, <[0 := b']> boxes)
    ∧ BBox._transformable b' = None
    ∧ (BBox.is_empty 0 boxes = (Return false, boxes) →
       BBox.is_empty 0 (<[0 := b']> boxes)
       = (Return false, <[0 := b']> boxes))
    ∧ (∀ x y, (BBox.NaN, BBox.Fin 7) = (BBox.Fin x, BBox.Fin y) →
       BBox.is_empty 0 (<[0 := b']> boxes)
       = (Return false, <[0 := b']> boxes))
    ∧ (BBox.NaN = BBox.NaN →
       BBox.max_x b' = BBox.Fin 4 ∧ BBox.min_x b' = BBox.Fin 0)
    ∧ (BBox.Fin 7 = BBox.NaN →
       BBox.max_y b' = BBox.Fin 3 ∧ BBox.min_y b' = BBox.Fin 0)
    ∧ ((BBox.NaN, BBox.Fin 7) = (BBox.NaN, BBox.NaN) →
       <[0 := b']> boxes = boxes).
Proof.
  apply (BBoxMore.add_point_never_empties boxes 0
           (BBox.mkBBox (BBox.Fin 4) (BBox.Fin 3) (BBox.Fin 0) (BBox.Fin 0)
                        None)
           (BBox.NaN, BBox.Fin 7)).
  reflexivity.
Defined.

End MoreWitnesses.
